(** * Transactional domain-event publication: ticket-sales sample

  Shallow embedding of the two renderings of the pipeline:
  - the Spring sample ([AggregateRoot], [Order], [Partner],
    [DomainEventPublisher], [TransactionalEventPublisher]);
  - the NestJS sample ([DomainEventManager], [UnitOfWorkMikroOrm],
    [ApplicationService]).

  Java objects are mutable and shared: aggregates live in a heap indexed
  by references, and a method is a function from the state before the call
  to a completion (normal or thrown) paired with the state after it. *)

From stdpp Require Import base strings list gmap pretty.

Local Open Scope Z_scope.
Local Open Scope string_scope.
Local Open Scope list_scope.

(** ** Java basics *)

(** [java.util.UUID] and [java.time.Instant] are opaque tokens of the run:
  [UUID.randomUUID()] and [Instant.now()] are inputs of the model. *)
Definition UUID := N.
Definition Instant := Z.

Record Draw := { randomUUID : UUID; now : Instant }.

Record BigDecimal := { unscaledValue : Z; scale : Z }.

Inductive Throwable :=
| IllegalStateException (message : string)
| RuntimeException (message : string)
| NullPointerException
| ClassCastException.

(** How a method call ends. *)
Inductive Completion (A : Type) :=
| Normal (result : A)
| Thrown (exception : Throwable).
Arguments Normal {A} result.
Arguments Thrown {A} exception.

Definition completesNormally {A} (c : Completion A) : bool :=
  match c with Normal _ => true | Thrown _ => false end.

(** ** domain.order.OrderStatus *)
Inductive OrderStatus := PENDING | PAID | CANCELLED.

Global Instance OrderStatus_eq_dec : EqDecision OrderStatus.
Proof. solve_decision. Defined.

(** ** domain.common.DomainEvent and its five implementations *)
Inductive DomainEvent :=
| PartnerCreated (eventId : UUID) (occurredOn : Instant) (partnerId name : string)
| PartnerNameChanged (eventId : UUID) (occurredOn : Instant) (partnerId newName : string)
| OrderCreated (eventId : UUID) (occurredOn : Instant)
  (orderId customerId eventSpotId : string) (amount : BigDecimal) (status : OrderStatus)
| OrderPaid (eventId : UUID) (occurredOn : Instant) (orderId : string) (status : OrderStatus)
| OrderCancelled (eventId : UUID) (occurredOn : Instant) (orderId : string) (status : OrderStatus).

Definition getEventName (e : DomainEvent) : string :=
  match e with
  | PartnerCreated _ _ _ _ => "PartnerCreated"
  | PartnerNameChanged _ _ _ _ => "PartnerNameChanged"
  | OrderCreated _ _ _ _ _ _ _ => "OrderCreated"
  | OrderPaid _ _ _ _ => "OrderPaid"
  | OrderCancelled _ _ _ _ => "OrderCancelled"
  end.

Definition getOccurredOn (e : DomainEvent) : Instant :=
  match e with
  | PartnerCreated _ t _ _ | PartnerNameChanged _ t _ _
  | OrderCreated _ t _ _ _ _ _ | OrderPaid _ t _ _ | OrderCancelled _ t _ _ => t
  end.

Definition getEventId (e : DomainEvent) : UUID :=
  match e with
  | PartnerCreated u _ _ _ | PartnerNameChanged u _ _ _
  | OrderCreated u _ _ _ _ _ _ | OrderPaid u _ _ _ | OrderCancelled u _ _ _ => u
  end.

(** The constructors draw the identifier and the timestamp themselves. *)
Definition newPartnerCreated (d : Draw) (partnerId name : string) : DomainEvent :=
  PartnerCreated (randomUUID d) (now d) partnerId name.
Definition newPartnerNameChanged (d : Draw) (partnerId newName : string) : DomainEvent :=
  PartnerNameChanged (randomUUID d) (now d) partnerId newName.
Definition newOrderCreated (d : Draw) (orderId customerId eventSpotId : string)
  (amount : BigDecimal) (status : OrderStatus) : DomainEvent :=
  OrderCreated (randomUUID d) (now d) orderId customerId eventSpotId amount status.
Definition newOrderPaid (d : Draw) (orderId : string) (status : OrderStatus) : DomainEvent :=
  OrderPaid (randomUUID d) (now d) orderId status.
Definition newOrderCancelled (d : Draw) (orderId : string) (status : OrderStatus) : DomainEvent :=
  OrderCancelled (randomUUID d) (now d) orderId status.

(** [UUID.toString()]; only used to name freshly created aggregates. *)
Definition UUID_toString (u : UUID) : string := pretty u.

(** ** domain.common.AggregateRoot *)
Module AggregateRoot.

Record t := { domainEvents : list DomainEvent }.

Definition init : t := {| domainEvents := [] |}.

Definition addEvent (event : DomainEvent) (this : t) : t :=
  {| domainEvents := domainEvents this ++ [event] |}.

(** The unmodifiable view has the contents of the list at the time it is
    read. *)
Definition getDomainEvents (this : t) : list DomainEvent := domainEvents this.

Definition clearEvents (this : t) : t := {| domainEvents := [] |}.

Definition hasEvents (this : t) : bool :=
  negb (bool_decide (domainEvents this = [])).

End AggregateRoot.

(** ** domain.order.Order *)
Module Order.

Record t := {
  super : AggregateRoot.t;
  id : string;
  customerId : string;
  eventSpotId : string;
  amount : BigDecimal;
  status : OrderStatus
}.

Definition setStatus (s : OrderStatus) (this : t) : t :=
  {| super := super this; id := id this; customerId := customerId this;
     eventSpotId := eventSpotId this; amount := amount this; status := s |}.

Definition addEvent (event : DomainEvent) (this : t) : t :=
  {| super := AggregateRoot.addEvent event (super this); id := id this;
     customerId := customerId this; eventSpotId := eventSpotId this;
     amount := amount this; status := status this |}.

Definition getDomainEvents (this : t) : list DomainEvent :=
  AggregateRoot.getDomainEvents (super this).

(** The private constructor. *)
Definition new (id0 customerId0 eventSpotId0 : string) (amount0 : BigDecimal) : t :=
  {| super := AggregateRoot.init; id := id0; customerId := customerId0;
     eventSpotId := eventSpotId0; amount := amount0; status := PENDING |}.

(** [Order.create]: [idDraw] is the UUID of the order, [d] what the
    constructor of [OrderCreated] draws. *)
Definition create (idDraw : UUID) (d : Draw)
    (customerId0 eventSpotId0 : string) (amount0 : BigDecimal) : t :=
  let id0 := UUID_toString idDraw in
  let order := new id0 customerId0 eventSpotId0 amount0 in
  addEvent (newOrderCreated d id0 customerId0 eventSpotId0 amount0 PENDING) order.

Definition pay (d : Draw) (this : t) : Completion unit * t :=
  if bool_decide (status this ≠ PENDING) then
    (Thrown (IllegalStateException "Order can only be paid when status is PENDING"), this)
  else
    let this1 := setStatus PAID this in
    let this2 := addEvent (newOrderPaid d (id this1) (status this1)) this1 in
    (Normal (), this2).

Definition cancel (d : Draw) (this : t) : Completion unit * t :=
  if bool_decide (status this = PAID) then
    (Thrown (IllegalStateException "Cannot cancel a paid order"), this)
  else
    let this1 := setStatus CANCELLED this in
    let this2 := addEvent (newOrderCancelled d (id this1) (status this1)) this1 in
    (Normal (), this2).

End Order.

(** ** domain.partner.Partner *)
Module Partner.

Record t := {
  super : AggregateRoot.t;
  id : string;
  name : string
}.

Definition addEvent (event : DomainEvent) (this : t) : t :=
  {| super := AggregateRoot.addEvent event (super this); id := id this;
     name := name this |}.

Definition getDomainEvents (this : t) : list DomainEvent :=
  AggregateRoot.getDomainEvents (super this).

Definition new (id0 name0 : string) : t :=
  {| super := AggregateRoot.init; id := id0; name := name0 |}.

Definition create (idDraw : UUID) (d : Draw) (name0 : string) : t :=
  let id0 := UUID_toString idDraw in
  let partner := new id0 name0 in
  addEvent (newPartnerCreated d id0 name0) partner.

Definition changeName (d : Draw) (newName : string) (this : t) : Completion unit * t :=
  let this1 := {| super := super this; id := id this; name := newName |} in
  let this2 := addEvent (newPartnerNameChanged d (id this1) newName) this1 in
  (Normal (), this2).

End Partner.

(** ** The JVM heap of aggregates

  [publishAfterCommit] keeps the reference it is given until the commit, and
  the business methods go on mutating the object behind it: aggregates are
  stored by reference. *)
Definition Ref := nat.

Inductive Entity :=
| EPartner (partner : Partner.t)
| EOrder (order : Order.t).

(** The [AggregateRoot] part of an object, and the object with that part
  replaced. *)
Definition asAggregateRoot (e : Entity) : AggregateRoot.t :=
  match e with
  | EPartner p => Partner.super p
  | EOrder o => Order.super o
  end.

Definition withAggregateRoot (f : AggregateRoot.t -> AggregateRoot.t) (e : Entity) : Entity :=
  match e with
  | EPartner p =>
    EPartner {| Partner.super := f (Partner.super p); Partner.id := Partner.id p;
                Partner.name := Partner.name p |}
  | EOrder o =>
    EOrder {| Order.super := f (Order.super o); Order.id := Order.id o;
              Order.customerId := Order.customerId o;
              Order.eventSpotId := Order.eventSpotId o;
              Order.amount := Order.amount o; Order.status := Order.status o |}
  end.

(** ** Spring collaborators

  [ApplicationEventPublisher] and the transaction manager belong to the
  framework.  They are modelled by their default behaviour, which the sample
  does not reconfigure: listeners are called synchronously, in order, and an
  exception of a listener propagates to the caller of [publishEvent];
  synchronizations get [afterCommit] after the commit and [afterCompletion]
  with the final status.

  An [ApplicationListener] is a listener that [publishEvent] itself calls:
  an [ApplicationListener] bean or a plain [@EventListener] method.  A
  method annotated [@TransactionalEventListener], as those of
  [PartnerEventListener] are, is not called by [publishEvent]: outside a
  transaction Spring skips it, inside one Spring defers it to a
  synchronization of its own and logs what it throws.  Such methods are not
  among the listeners of this model. *)
Record ApplicationListener := {
  listenerId : nat;
  supportsEvent : DomainEvent -> bool;
  onApplicationEvent : DomainEvent -> option Throwable
}.

(** What an observer standing outside the service can see, in order. *)
Inductive Obs :=
| Published (event : DomainEvent)
| Delivered (listener : nat) (event : DomainEvent)
| Committed
| RolledBack.

(** The anonymous [TransactionSynchronization] of [publishAfterCommit]: a
  closure over [aggregateRoot]. *)
Inductive TransactionSynchronization :=
| PublishSynchronization (aggregateRoot : Ref).

Definition capturedAggregate (s : TransactionSynchronization) : Ref :=
  match s with PublishSynchronization r => r end.

Record World := {
  heap : gmap Ref Entity;
  synchronizationActive : bool;
  synchronizations : list TransactionSynchronization;
  log : list Obs
}.

Definition setHeap (h : gmap Ref Entity) (w : World) : World :=
  {| heap := h; synchronizationActive := synchronizationActive w;
     synchronizations := synchronizations w; log := log w |}.

Definition emit (o : list Obs) (w : World) : World :=
  {| heap := heap w; synchronizationActive := synchronizationActive w;
     synchronizations := synchronizations w; log := log w ++ o |}.

Definition registerSynchronization (s : TransactionSynchronization) (w : World) : World :=
  {| heap := heap w; synchronizationActive := synchronizationActive w;
     synchronizations := synchronizations w ++ [s]; log := log w |}.

Definition STATUS_COMMITTED : Z := 0.
Definition STATUS_ROLLED_BACK : Z := 1.
Definition STATUS_UNKNOWN : Z := 2.

(** The default multicaster: every listener that supports the event, in
  order; the first exception ends the call. *)
Fixpoint multicastEvent (ls : list ApplicationListener) (event : DomainEvent)
  (w : World) : Completion unit * World :=
  match ls with
  | [] => (Normal (), w)
  | l :: ls' =>
    if supportsEvent l event then
      let w' := emit [Delivered (listenerId l) event] w in
      match onApplicationEvent l event with
      | Some ex => (Thrown ex, w')
      | None => multicastEvent ls' event w'
      end
    else multicastEvent ls' event w
  end.

Definition publishEvent (listeners : list ApplicationListener) (event : DomainEvent)
  (w : World) : Completion unit * World :=
  multicastEvent listeners event (emit [Published event] w).

(** ** application.DomainEventPublisher *)

(** The [for] loop of [publishEvents] over the events read from the buffer. *)
Fixpoint publishLoop (listeners : list ApplicationListener) (events : list DomainEvent)
  (w : World) : Completion unit * World :=
  match events with
  | [] => (Normal (), w)
  | event :: rest =>
    match publishEvent listeners event w with
    | (Normal _, w') => publishLoop listeners rest w'
    | (Thrown ex, w') => (Thrown ex, w')
    end
  end.

Definition clearEventsOf (aggregateRoot : Ref) (w : World) : World :=
  setHeap (alter (withAggregateRoot AggregateRoot.clearEvents) aggregateRoot (heap w)) w.

Definition publishEvents (listeners : list ApplicationListener) (aggregateRoot : Ref)
  (w : World) : Completion unit * World :=
  match heap w !! aggregateRoot with
  | None => (Thrown NullPointerException, w)
  | Some e =>
    match publishLoop listeners (AggregateRoot.getDomainEvents (asAggregateRoot e)) w with
    | (Normal _, w') => (Normal (), clearEventsOf aggregateRoot w')
    | (Thrown ex, w') => (Thrown ex, w')
    end
  end.

(** ** application.TransactionalEventPublisher *)

Definition afterCommit (listeners : list ApplicationListener)
  (s : TransactionSynchronization) (w : World) : Completion unit * World :=
  publishEvents listeners (capturedAggregate s) w.

Definition afterCompletion (s : TransactionSynchronization) (status : Z) (w : World) : World :=
  if bool_decide (status = STATUS_ROLLED_BACK) then clearEventsOf (capturedAggregate s) w
  else w.

Definition publishAfterCommit (listeners : list ApplicationListener) (aggregateRoot : Ref)
  (w : World) : Completion unit * World :=
  if negb (synchronizationActive w) then
  publishEvents listeners aggregateRoot w
  else
  (Normal (), registerSynchronization (PublishSynchronization aggregateRoot) w).

(** ** The transaction around a service method ([@Transactional]) *)

Definition beginTransaction (w : World) : World :=
  {| heap := heap w; synchronizationActive := true; synchronizations := []; log := log w |}.

Definition cleanupAfterCompletion (w : World) : World :=
  {| heap := heap w; synchronizationActive := false; synchronizations := []; log := log w |}.

Fixpoint triggerAfterCommit (listeners : list ApplicationListener)
  (ss : list TransactionSynchronization) (w : World) : Completion unit * World :=
  match ss with
  | [] => (Normal (), w)
  | s :: ss' =>
    match afterCommit listeners s w with
    | (Normal _, w') => triggerAfterCommit listeners ss' w'
    | (Thrown ex, w') => (Thrown ex, w')
    end
  end.

Fixpoint triggerAfterCompletion (ss : list TransactionSynchronization) (status : Z)
  (w : World) : World :=
  match ss with
  | [] => w
  | s :: ss' => triggerAfterCompletion ss' status (afterCompletion s status w)
  end.

Definition processCommit (listeners : list ApplicationListener) (w : World)
  : Completion unit * World :=
  let ss := synchronizations w in
  let w1 := emit [Committed] w in
  let (c, w2) := triggerAfterCommit listeners ss w1 in
  (c, cleanupAfterCompletion (triggerAfterCompletion ss STATUS_COMMITTED w2)).

Definition processRollback (w : World) : World :=
  let ss := synchronizations w in
  let w1 := emit [RolledBack] w in
  cleanupAfterCompletion (triggerAfterCompletion ss STATUS_ROLLED_BACK w1).

(** ** What a service method does inside its transaction

  One statement per call the application services make on the domain and on
  the publisher. *)
Inductive Stmt :=
| PartnerCreate (idDraw : UUID) (d : Draw) (name : string)
| PartnerChangeName (partner : Ref) (d : Draw) (newName : string)
| OrderCreate (idDraw : UUID) (d : Draw) (customerId eventSpotId : string) (amount : BigDecimal)
| OrderPay (order : Ref) (d : Draw)
| OrderCancel (order : Ref) (d : Draw)
| PublishAfterCommit (aggregateRoot : Ref).

Definition allocate (e : Entity) (w : World) : World :=
  setHeap (<[fresh (dom (heap w)) := e]> (heap w)) w.

Definition store (r : Ref) (e : Entity) (w : World) : World :=
  setHeap (<[r := e]> (heap w)) w.

Definition onPartner (r : Ref) (m : Partner.t -> Completion unit * Partner.t) (w : World)
  : Completion unit * World :=
  match heap w !! r with
  | Some (EPartner p) => let (c, p') := m p in (c, store r (EPartner p') w)
  | Some (EOrder _) => (Thrown ClassCastException, w)
  | None => (Thrown NullPointerException, w)
  end.

Definition onOrder (r : Ref) (m : Order.t -> Completion unit * Order.t) (w : World)
  : Completion unit * World :=
  match heap w !! r with
  | Some (EOrder o) => let (c, o') := m o in (c, store r (EOrder o') w)
  | Some (EPartner _) => (Thrown ClassCastException, w)
  | None => (Thrown NullPointerException, w)
  end.

Definition exec (listeners : list ApplicationListener) (s : Stmt) (w : World)
  : Completion unit * World :=
  match s with
  | PartnerCreate idDraw d name => (Normal (), allocate (EPartner (Partner.create idDraw d name)) w)
  | PartnerChangeName r d newName => onPartner r (Partner.changeName d newName) w
  | OrderCreate idDraw d customerId eventSpotId amount =>
    (Normal (), allocate (EOrder (Order.create idDraw d customerId eventSpotId amount)) w)
  | OrderPay r d => onOrder r (Order.pay d) w
  | OrderCancel r d => onOrder r (Order.cancel d) w
  | PublishAfterCommit r => publishAfterCommit listeners r w
  end.

(** The statements that call a business method of an aggregate. *)
Definition isBusinessCall (s : Stmt) : bool :=
  match s with
  | PartnerChangeName _ _ _ | OrderPay _ _ | OrderCancel _ _ => true
  | PartnerCreate _ _ _ | OrderCreate _ _ _ _ _ | PublishAfterCommit _ => false
  end.

Fixpoint execAll (listeners : list ApplicationListener) (body : list Stmt) (w : World)
  : Completion unit * World :=
  match body with
  | [] => (Normal (), w)
  | s :: rest =>
    match exec listeners s w with
    | (Normal _, w') => execAll listeners rest w'
    | (Thrown ex, w') => (Thrown ex, w')
    end
  end.

(** The proxy of a [@Transactional] method is Spring's.  Its stand-in follows
  the default rule: commit on normal return, roll back on an unchecked
  exception, which is then thrown on. *)
Definition transactional (listeners : list ApplicationListener) (body : list Stmt)
  (w : World) : Completion unit * World :=
  match execAll listeners body (beginTransaction w) with
  | (Normal _, w') => processCommit listeners w'
  | (Thrown ex, w') => (Thrown ex, processRollback w')
  end.

(** ** The NestJS rendering *)
Module Nest.

(** How an awaited promise settles. *)
Inductive Settled :=
| Resolved
| Rejected (reason : string).

(** An [async (event) => ...] handler.  Of a handler the model keeps how its
  promise settles for an event; what else a handler does, to the entity
  manager for instance, is outside the model. *)
Record Handler := {
  handlerId : nat;
  handle : DomainEvent -> Settled
}.

Inductive Phase := DomainPhase | IntegrationPhase.

Inductive Obs :=
| Emitted (phase : Phase) (event : DomainEvent)
| Handled (phase : Phase) (handler : nat) (event : DomainEvent)
| Flushed.

(** [EventEmitter2 { wildcard: true }], a library: [on] appends a listener
  under a key; [emitAsync] calls the listeners of the emitted name, then the
  listeners of the wildcards ["*"] and ["**"], each group in the order of
  registration, and resolves when all of them resolve (it rejects with the
  first rejection).  The names emitted here are class names, of one
  segment. *)
Definition EventEmitter2 := list (string * Handler).

Definition on (event : string) (handler : Handler) (emitter : EventEmitter2) : EventEmitter2 :=
  emitter ++ [(event, handler)].

Definition listenersOf (key : string) (emitter : EventEmitter2) : list Handler :=
  map snd (filter (fun kh => fst kh = key) emitter).

Definition matchingListeners (name : string) (emitter : EventEmitter2) : list Handler :=
  listenersOf name emitter ++ listenersOf "*" emitter ++ listenersOf "**" emitter.

Fixpoint all (results : list Settled) : Settled :=
  match results with
  | [] => Resolved
  | Resolved :: rest => all rest
  | Rejected reason :: _ => Rejected reason
  end.

Definition emitAsync (phase : Phase) (emitter : EventEmitter2) (name : string)
  (event : DomainEvent) (log : list Obs) : Settled * list Obs :=
  let hs := matchingListeners name emitter in
  (all (map (fun h => handle h event) hs),
   log ++ Emitted phase event :: map (fun h => Handled phase (handlerId h) event) hs).

(** The TypeScript aggregate root keeps its events in a [Set], which is
  iterated in insertion order. *)
Record AggregateRoot := { events : list DomainEvent }.

(** *** DomainEventManager

  Modelled from the spec: of the integration side only the calls of
  [registerForIntegrationEvent] and [publishForIntegrationEvent] are in the
  sources.  [integrationEventsSubscriber] is the second registration class
  of the spec, an emitter like the first. *)
Record DomainEventManager := {
  domainEventsSubscriber : EventEmitter2;
  integrationEventsSubscriber : EventEmitter2
}.

Definition register (event : string) (handler : Handler) (m : DomainEventManager)
  : DomainEventManager :=
  {| domainEventsSubscriber := on event handler (domainEventsSubscriber m);
     integrationEventsSubscriber := integrationEventsSubscriber m |}.

(** Modelled from the spec: the body of [registerForIntegrationEvent] is not
  in the sources.  It registers [handler] for the events of kind [event] in
  the integration class, as [register] does in the domain class. *)
Definition registerForIntegrationEvent (event : string) (handler : Handler)
  (m : DomainEventManager) : DomainEventManager :=
  {| domainEventsSubscriber := domainEventsSubscriber m;
     integrationEventsSubscriber := on event handler (integrationEventsSubscriber m) |}.

(** The loop of [publish]: [event.constructor.name] is the name of the event
  class. *)
Fixpoint emitEach (phase : Phase) (emitter : EventEmitter2) (evs : list DomainEvent)
  (log : list Obs) : Settled * list Obs :=
  match evs with
  | [] => (Resolved, log)
  | event :: rest =>
    let eventClassName := getEventName event in
    match emitAsync phase emitter eventClassName event log with
    | (Resolved, log') => emitEach phase emitter rest log'
    | (Rejected reason, log') => (Rejected reason, log')
    end
  end.

Definition publish (m : DomainEventManager) (aggregateRoot : AggregateRoot)
  (log : list Obs) : Settled * list Obs :=
  emitEach DomainPhase (domainEventsSubscriber m) (events aggregateRoot) log.

(** Modelled from the spec: the body of [publishForIntegrationEvent] is not
  in the sources, only its call in [finish] and the registration through
  [registerForIntegrationEvent].  The handlers registered for integration
  are invoked for the events of the aggregate, in recording order, and feed
  the hand-off to the transport.  A failure of a handler or of the
  transport is contained: it stops neither the other handlers nor the later
  events and is not passed on to the caller. *)
Fixpoint handOffEach (emitter : EventEmitter2) (evs : list DomainEvent)
  (log : list Obs) : list Obs :=
  match evs with
  | [] => log
  | event :: rest =>
    handOffEach emitter rest
      (snd (emitAsync IntegrationPhase emitter (getEventName event) event log))
  end.

(** Modelled from the spec: see [handOffEach]. *)
Definition publishForIntegrationEvent (m : DomainEventManager) (aggregateRoot : AggregateRoot)
  (log : list Obs) : Settled * list Obs :=
  (Resolved, handOffEach (integrationEventsSubscriber m) (events aggregateRoot) log).

(** *** UnitOfWorkMikroOrm

  The entity manager is MikroORM's.  Of it the model keeps the two stacks the
  unit of work reads and whether the database accepts a flush. *)
Record EntityManager := {
  persistStack : list AggregateRoot;
  removeStack : list AggregateRoot;
  databaseUp : bool
}.

Record World := {
  em : EntityManager;
  log : list Obs
}.

(** [em.persist(entity)]: the entity joins the persist stack. *)
Definition persist (a : AggregateRoot) (w : World) : World :=
  {| em := {| persistStack := persistStack (em w) ++ [a]; removeStack := removeStack (em w);
            databaseUp := databaseUp (em w) |};
     log := log w |}.


(** [em.flush()] is MikroORM's.  Its stand-in resolves when the database is
  up, leaving the mark [Flushed] and both stacks empty, and rejects
  otherwise. *)
Definition flush (w : World) : Settled * World :=
  if databaseUp (em w) then
    (Resolved,
     {| em := {| persistStack := []; removeStack := []; databaseUp := true |};
        log := log w ++ [Flushed] |})
  else (Rejected "flush failed", w).

Definition commit (w : World) : Settled * World := flush w.

Definition getAggregateRoots (w : World) : list AggregateRoot :=
  persistStack (em w) ++ removeStack (em w).

(** *** ApplicationService *)

(** [for (const aggregateRoot of aggregateRoots) await f(aggregateRoot)]. *)
Fixpoint forEachRoot (f : AggregateRoot -> list Obs -> Settled * list Obs)
  (aggregateRoots : list AggregateRoot) (log : list Obs) : Settled * list Obs :=
  match aggregateRoots with
  | [] => (Resolved, log)
  | aggregateRoot :: rest =>
    match f aggregateRoot log with
    | (Resolved, log') => forEachRoot f rest log'
    | (Rejected reason, log') => (Rejected reason, log')
    end
  end.

Definition finish (m : DomainEventManager) (w : World) : Settled * World :=
  let aggregateRoots := getAggregateRoots w in
  match forEachRoot (publish m) aggregateRoots (log w) with
  | (Rejected reason, log1) => (Rejected reason, {| em := em w; log := log1 |})
  | (Resolved, log1) =>
    match commit {| em := em w; log := log1 |} with
    | (Rejected reason, w2) => (Rejected reason, w2)
    | (Resolved, w2) =>
        match forEachRoot (publishForIntegrationEvent m) aggregateRoots (log w2) with
        | (settled, log3) => (settled, {| em := em w2; log := log3 |})
        end
    end
  end.

End Nest.

(** ** Reading the logs *)

Definition isDispatch (o : Obs) : bool :=
  match o with
  | Published _ | Delivered _ _ => true
  | Committed | RolledBack => false
  end.

(** The events handed to [publishEvent], in order. *)
Definition publishedEvents (l : list Obs) : list DomainEvent :=
  flat_map (fun o => match o with Published e => [e] | _ => [] end) l.

(** The listeners invoked, in order. *)
Definition invokedListeners (l : list Obs) : list nat :=
  flat_map (fun o => match o with Delivered i _ => [i] | _ => [] end) l.

(** [aggregateRoot.getDomainEvents()] through a reference. *)
Definition pendingEvents (h : gmap Ref Entity) (r : Ref) : list DomainEvent :=
  match h !! r with
  | Some e => AggregateRoot.getDomainEvents (asAggregateRoot e)
  | None => []
  end.

(** What one successful [publishEvent] leaves in the log. *)
Definition deliveries (ls : list ApplicationListener) (event : DomainEvent) : list Obs :=
  map (fun l => Delivered (listenerId l) event)
    (filter (fun l => supportsEvent l event = true) ls).

Definition dispatchOf (ls : list ApplicationListener) (event : DomainEvent) : list Obs :=
  Published event :: deliveries ls event.

(** No listener of [ls] throws on [event]. *)
Definition quietOn (ls : list ApplicationListener) (event : DomainEvent) : Prop :=
  forall l, l ∈ ls -> supportsEvent l event = true -> onApplicationEvent l event = None.

Definition trackedAggregates (w : World) : list Ref :=
  map capturedAggregate (synchronizations w).

(** The references of [l] that are not in [seen], each at its first
  occurrence. *)
Fixpoint firstOccurrences (seen l : list Ref) : list Ref :=
  match l with
  | [] => []
  | r :: l' =>
    if bool_decide (r ∈ seen) then firstOccurrences seen l'
    else r :: firstOccurrences (r :: seen) l'
  end.

Module NestLog.

Definition phaseOf (o : Nest.Obs) : option Nest.Phase :=
  match o with
  | Nest.Emitted p _ | Nest.Handled p _ _ => Some p
  | Nest.Flushed => None
  end.

Definition inPhase (p : Nest.Phase) (o : Nest.Obs) : Prop := phaseOf o = Some p.

(** The events passed to [emitAsync] in a phase, in order. *)
Definition emittedIn (p : Nest.Phase) (l : list Nest.Obs) : list DomainEvent :=
  flat_map (fun o => match o, p with
                   | Nest.Emitted Nest.DomainPhase e, Nest.DomainPhase => [e]
                   | Nest.Emitted Nest.IntegrationPhase e, Nest.IntegrationPhase => [e]
                   | _, _ => []
                   end) l.







(** [commit] called [n] times in a row: how each call settled, and the
  final state. *)
Fixpoint commitTimes (n : nat) (w : Nest.World) : list Nest.Settled * Nest.World :=
  match n with
  | O => ([], w)
  | S n' =>
    let (s, w') := Nest.commit w in
    let (ss, w'') := commitTimes n' w' in
    (s :: ss, w'')
  end.

End NestLog.

(** ** Sample data used by the examples *)

Definition draw1 : Draw := {| randomUUID := 11%N; now := 1000 |}.
Definition draw2 : Draw := {| randomUUID := 12%N; now := 2000 |}.
Definition draw3 : Draw := {| randomUUID := 13%N; now := 3000 |}.

Definition tenReais : BigDecimal := {| unscaledValue := 1000; scale := 2 |}.

Definition pendingOrder : Order.t := Order.create 1%N draw1 "customer" "spot" tenReais.
Definition paidOrder : Order.t := snd (Order.pay draw2 pendingOrder).
Definition cancelledOrder : Order.t := snd (Order.cancel draw2 pendingOrder).

Definition acme : Partner.t := Partner.create 2%N draw1 "Acme".

Definition renamedAcme : Partner.t := snd (Partner.changeName draw2 "Beta" acme).

(** Two listeners for every event: the first always throws. *)
Definition failingListener : ApplicationListener :=
  {| listenerId := 1; supportsEvent := fun _ => true;
     onApplicationEvent := fun _ => Some (RuntimeException "listener failed") |}.

Definition recordingListener : ApplicationListener :=
  {| listenerId := 2; supportsEvent := fun _ => true;
     onApplicationEvent := fun _ => None |}.

Definition emptyWorld : World :=
  {| heap := ∅; synchronizationActive := false; synchronizations := []; log := [] |}.

(** One partner with two pending events, outside any transaction. *)
Definition worldWithAcme : World := allocate (EPartner renamedAcme) emptyWorld.

(** A use case that creates a partner, renames it and hands it to the
  publisher. *)
Definition createAndRename : list Stmt :=
  [PartnerCreate 2%N draw1 "Acme"; PartnerChangeName 0%nat draw2 "Beta";
   PublishAfterCommit 0%nat].

(** Two aggregates registered in the order partner, order, while the event
  of the order is the older one. *)
Definition lateAcme : Partner.t := Partner.create 2%N draw3 "Acme".

(** A partner handed to the publisher and an order that is not. *)
Definition worldWithUntracked : World :=
  registerSynchronization (PublishSynchronization 0%nat)
    (allocate (EOrder pendingOrder)
       (allocate (EPartner lateAcme) (beginTransaction emptyWorld))).

Definition worldWithTwo : World :=
  registerSynchronization (PublishSynchronization 1%nat)
  (registerSynchronization (PublishSynchronization 0%nat)
     (allocate (EOrder pendingOrder)
        (allocate (EPartner lateAcme) (beginTransaction emptyWorld)))).

Module NestSample.

Import Nest.

Definition auditHandler : Handler := {| handlerId := 1; handle := fun _ => Resolved |}.
Definition queueHandler : Handler := {| handlerId := 2; handle := fun _ => Resolved |}.

Definition manager : DomainEventManager :=
  registerForIntegrationEvent "PartnerCreated" queueHandler
  (register "*" auditHandler
     {| domainEventsSubscriber := []; integrationEventsSubscriber := [] |}).

Definition partnerCreated : DomainEvent := PartnerCreated 11%N 1000 "2" "Acme".
Definition orderCreated : DomainEvent :=
  OrderCreated 12%N 500 "1" "customer" "spot" tenReais PENDING.

Definition newWorld (up : bool) : World :=
  {| em := {| persistStack := []; removeStack := []; databaseUp := up |}; log := [] |}.

Definition worldUp : World := persist {| events := [partnerCreated] |} (newWorld true).
Definition worldDown : World := persist {| events := [partnerCreated] |} (newWorld false).

Definition worldTwo : World :=
  persist {| events := [orderCreated] |}
  (persist {| events := [partnerCreated] |} (newWorld true)).

(** Two handlers of the same event name: the first always rejects. *)
Definition failingHandler : Handler :=
  {| handlerId := 3; handle := fun _ => Rejected "handler failed" |}.

Definition managerWithFailure : DomainEventManager :=
  register "PartnerCreated" auditHandler
  (register "PartnerCreated" failingHandler
     {| domainEventsSubscriber := []; integrationEventsSubscriber := [] |}).

Definition secondPartnerCreated : DomainEvent := PartnerCreated 14%N 4000 "3" "Beta".



End NestSample.

(** ** Sequences of calls on one aggregate

  A caller that invokes business methods one after the other and catches
  what they throw: the object carries on from the state each call left. *)

Definition recordAll (events : list DomainEvent) (a : AggregateRoot.t) : AggregateRoot.t :=
  foldl (fun this event => AggregateRoot.addEvent event this) a events.

Inductive OrderCall :=
| CallPay (d : Draw)
| CallCancel (d : Draw).

Definition invoke (c : OrderCall) (o : Order.t) : Completion unit * Order.t :=
  match c with
  | CallPay d => Order.pay d o
  | CallCancel d => Order.cancel d o
  end.

Definition invokeAll (cs : list OrderCall) (o : Order.t) : Order.t :=
  foldl (fun this c => snd (invoke c this)) o cs.

Definition renameAll (renames : list (Draw * string)) (p : Partner.t) : Partner.t :=
  foldl (fun this r => snd (Partner.changeName (fst r) (snd r) this)) p renames.

(** The status an order event carries. *)
Definition eventStatus (e : DomainEvent) : option OrderStatus :=
  match e with
  | OrderCreated _ _ _ _ _ _ s | OrderPaid _ _ _ s | OrderCancelled _ _ _ s => Some s
  | PartnerCreated _ _ _ _ | PartnerNameChanged _ _ _ _ => None
  end.

(** The id of the aggregate an event speaks of: [getOrderId()] or
  [getPartnerId()]. *)
Definition aggregateIdOf (e : DomainEvent) : string :=
  match e with
  | PartnerCreated _ _ i _ | PartnerNameChanged _ _ i _
  | OrderCreated _ _ i _ _ _ _ | OrderPaid _ _ i _ | OrderCancelled _ _ i _ => i
  end.

Definition isOrderPaid (e : DomainEvent) : bool :=
  match e with OrderPaid _ _ _ _ => true | _ => false end.

Definition isOrderCancelled (e : DomainEvent) : bool :=
  match e with OrderCancelled _ _ _ _ => true | _ => false end.

(** A log entry that [publishEvents] may write for the events [evs]: the
  publication of one of them, or its delivery to one of the listeners that
  supports it. *)
Definition fromDispatch (ls : list ApplicationListener) (evs : list DomainEvent)
  (o : Obs) : Prop :=
  match o with
  | Published ev => ev ∈ evs
  | Delivered i ev =>
    ev ∈ evs /\ exists l, l ∈ ls /\ listenerId l = i /\ supportsEvent l ev = true
  | Committed | RolledBack => False
  end.

Definition setSynchronizations (ss : list TransactionSynchronization) (w : World) : World :=
  {| heap := heap w; synchronizationActive := synchronizationActive w;
     synchronizations := ss; log := log w |}.

(** What one [emitAsync] leaves in the log. *)
Definition emissionOf (phase : Nest.Phase) (emitter : Nest.EventEmitter2)
  (event : DomainEvent) : list Nest.Obs :=
  Nest.Emitted phase event
    :: map (fun h => Nest.Handled phase (Nest.handlerId h) event)
         (Nest.matchingListeners (getEventName event) emitter).

(** Every handler the emitter calls for [event] resolves. *)
Definition resolvesOn (emitter : Nest.EventEmitter2) (event : DomainEvent) : Prop :=
  forall h, h ∈ Nest.matchingListeners (getEventName event) emitter ->
    Nest.handle h event = Nest.Resolved.

(** ** @core/common/domain/value-objects

  A JavaScript reference is [undefined], [null] or a value.  [isEqual] is
  lodash's; on [undefined] and [null] it is identity, on two values it is
  the deep comparison [eqV] of the value type. *)
Module ValueObjects.

Inductive Js (A : Type) :=
| Undefined
| Null
| Val (a : A).
Arguments Undefined {A}.
Arguments Null {A}.
Arguments Val {A} a.

Definition isEqual {V : Type} (eqV : V -> V -> bool) (a b : Js V) : bool :=
  match a, b with
  | Undefined, Undefined => true
  | Null, Null => true
  | Val x, Val y => eqV x y
  | _, _ => false
  end.

(** An instance of a subclass of [ValueObject]: [constructor.name] and the
  frozen [_value].  [deepFreeze] returns the object it was given. *)
Record ValueObject (V : Type) := {
  constructorName : string;
  _value : Js V
}.
Arguments constructorName {V} _.
Arguments _value {V} _.

Definition new {V : Type} (className : string) (value : Js V) : ValueObject V :=
  {| constructorName := className; _value := value |}.

Definition value {V : Type} (this : ValueObject V) : Js V := _value this.

Definition equals {V : Type} (eqV : V -> V -> bool) (this : ValueObject V)
  (obj : Js (ValueObject V)) : bool :=
  match obj with
  | Undefined | Null => false
  | Val o =>
    match value o with
    | Undefined => false
    | _ =>
      if bool_decide (constructorName o ≠ constructorName this) then false
      else isEqual eqV (value this) (value o)
    end
  end.

(** A string of the model is the UTF-8 text of a JavaScript string, whose
  [length] counts UTF-16 code units: one for a character of one, two or
  three bytes, two for a character of four bytes, none for a continuation
  byte. *)
Definition codeUnitsOf (byte : Ascii.ascii) : nat :=
  let n := Ascii.nat_of_ascii byte in
  if bool_decide (n < 128)%nat then 1%nat
  else if bool_decide (n < 192)%nat then 0%nat
  else if bool_decide (n < 240)%nat then 1%nat
  else 2%nat.

Fixpoint utf16Length (s : string) : nat :=
  match s with
  | EmptyString => 0%nat
  | String byte rest => (codeUnitsOf byte + utf16Length rest)%nat
  end.

(** [Name extends ValueObject<String>].  [isValid] reads
  [this.value.length], which throws a [TypeError] ([None]) when the value is
  [undefined] or [null]. *)
Definition Name_isValid (this : ValueObject string) : option bool :=
  match value this with
  | Val s => Some (bool_decide (3 <= utf16Length s)%nat)
  | Undefined | Null => None
  end.

(** The constructor calls [isValid] and drops what it returns. *)
Definition Name_new (name : string) : ValueObject string :=
  let this := new "Name" (Val name) in
  let _ := Name_isValid this in
  this.

End ValueObjects.
(** * Aggregates *)

Lemma pay_throws_iff (d : Draw) (o : Order.t) :
  (exists ex, fst (Order.pay d o) = Thrown ex) <-> Order.status o <> PENDING.
Proof.
  unfold Order.pay. case_bool_decide; simpl; split; intros H'; try done.
  - eauto.
  - by destruct H' as [ex Hex].
Qed.

Lemma cancel_throws_iff (d : Draw) (o : Order.t) :
  (exists ex, fst (Order.cancel d o) = Thrown ex) <-> Order.status o = PAID.
Proof.
  unfold Order.cancel. case_bool_decide; simpl; split; intros H'; try done.
  - eauto.
  - by destruct H' as [ex Hex].
Qed.

Lemma store_same (r : Ref) (e : Entity) (w : World) :
  heap w !! r = Some e -> store r e w = w.
Proof.
  intros Hr. unfold store, setHeap. rewrite insert_id by done. by destruct w.
Qed.

(** The same through a reference: a business call that throws leaves the
  whole heap as it was. *)
Lemma exec_throwing_call (listeners : list ApplicationListener) (s : Stmt) (w : World)
    (ex : Throwable) :
  isBusinessCall s = true ->
  fst (exec listeners s w) = Thrown ex ->
  snd (exec listeners s w) = w.
Proof.
  intros Hcall. destruct s; try done; simpl.
  - unfold onPartner. destruct (heap w !! partner) as [[p|o]|]; simpl; done.
  - unfold onOrder. destruct (heap w !! order) as [[p|o]|] eqn:Hr; simpl; try done.
    unfold Order.pay. case_bool_decide; simpl; [|done]. intros _. by apply store_same.
  - unfold onOrder. destruct (heap w !! order) as [[p|o]|] eqn:Hr; simpl; try done.
    unfold Order.cancel. case_bool_decide; simpl; [|done]. intros _. by apply store_same.
Qed.

(** C3. A business method that throws leaves the aggregate as it was: the
  fields and the buffer of pending events after the call are those before
  it.  [pay] and [cancel] check before they write; [changeName] never
  throws.  Called through a reference, the heap is unchanged as well. *)
Theorem C3_throwing_call_changes_nothing :
  forall (d : Draw) (o : Order.t) (p : Partner.t) (newName : string) (ex : Throwable),
    (fst (Order.pay d o) = Thrown ex ->
       snd (Order.pay d o) = o /\
       Order.getDomainEvents (snd (Order.pay d o)) = Order.getDomainEvents o) /\
    (fst (Order.cancel d o) = Thrown ex ->
       snd (Order.cancel d o) = o /\
       Order.getDomainEvents (snd (Order.cancel d o)) = Order.getDomainEvents o) /\
    (fst (Partner.changeName d newName p) = Thrown ex ->
       snd (Partner.changeName d newName p) = p /\
       Partner.getDomainEvents (snd (Partner.changeName d newName p))
         = Partner.getDomainEvents p) /\
    (forall (listeners : list ApplicationListener) (s : Stmt) (w : World),
       isBusinessCall s = true ->
       fst (exec listeners s w) = Thrown ex ->
       snd (exec listeners s w) = w).
Proof.
  intros d o p newName ex.
  split; [intros H; revert H; unfold Order.pay; by case_bool_decide|].
  split; [intros H; revert H; unfold Order.cancel; by case_bool_decide|].
  split; [intros H; by simpl in H|].
  intros listeners s w. apply exec_throwing_call.
Qed.

Lemma C3_witness :
  snd (Order.pay draw3 paidOrder) = paidOrder /\
  Order.getDomainEvents (snd (Order.pay draw3 paidOrder)) = Order.getDomainEvents paidOrder.
Proof.
  apply (proj1 (C3_throwing_call_changes_nothing draw3 paidOrder acme "Beta"
                  (IllegalStateException "Order can only be paid when status is PENDING"))).
  reflexivity.
Defined.

(** C4, as the code has it.  [pay] succeeds from PENDING only and [cancel]
  fails from PAID only: PAID is terminal, while a CANCELLED order can be
  cancelled again.  A call that succeeds sets the new status and appends one
  event that carries the order id and that status; a call that fails throws
  [IllegalStateException] and changes nothing. *)
Theorem C4_order_transitions :
  forall (d : Draw) (o : Order.t),
    (Order.status o = PENDING ->
       fst (Order.pay d o) = Normal () /\
       Order.status (snd (Order.pay d o)) = PAID /\
       Order.getDomainEvents (snd (Order.pay d o))
         = Order.getDomainEvents o ++ [OrderPaid (randomUUID d) (now d) (Order.id o) PAID]) /\
    (Order.status o <> PENDING ->
       exists msg, Order.pay d o = (Thrown (IllegalStateException msg), o)) /\
    (Order.status o = PAID ->
       exists msg, Order.cancel d o = (Thrown (IllegalStateException msg), o)) /\
    (Order.status o <> PAID ->
       fst (Order.cancel d o) = Normal () /\
       Order.status (snd (Order.cancel d o)) = CANCELLED /\
       Order.getDomainEvents (snd (Order.cancel d o))
         = Order.getDomainEvents o
             ++ [OrderCancelled (randomUUID d) (now d) (Order.id o) CANCELLED]).
Proof.
  intros d o. unfold Order.pay, Order.cancel.
  split; [|split; [|split]]; intros Hs.
  - rewrite bool_decide_false by (by intros ?). done.
  - rewrite bool_decide_true by done. eauto.
  - rewrite bool_decide_true by done. eauto.
  - by rewrite bool_decide_false.
Qed.

Lemma C4_witness :
  fst (Order.pay draw2 pendingOrder) = Normal () /\
  Order.status (snd (Order.pay draw2 pendingOrder)) = PAID /\
  Order.getDomainEvents (snd (Order.pay draw2 pendingOrder))
    = Order.getDomainEvents pendingOrder
        ++ [OrderPaid (randomUUID draw2) (now draw2) (Order.id pendingOrder) PAID].
Proof.
  apply (proj1 (C4_order_transitions draw2 pendingOrder)). reflexivity.
Defined.

(** C4 fails as stated: [cancel] on an order that is already CANCELLED
  completes normally and records a second [OrderCancelled]. *)
Lemma C4_counterexample :
  Order.status cancelledOrder = CANCELLED /\
  fst (Order.cancel draw3 cancelledOrder) = Normal () /\
  Order.getDomainEvents (snd (Order.cancel draw3 cancelledOrder))
    = Order.getDomainEvents cancelledOrder ++ [OrderCancelled 13%N 3000 "1" CANCELLED].
Proof. by vm_compute. Qed.

(** C10. [changeName] accepts every string, the empty one included: it
  completes normally, sets the name, and appends one [PartnerNameChanged]
  with the partner id and the new name, so the buffer grows by one. *)
Theorem C10_changeName_always_succeeds :
  forall (d : Draw) (newName : string) (p : Partner.t),
    fst (Partner.changeName d newName p) = Normal () /\
    Partner.name (snd (Partner.changeName d newName p)) = newName /\
    Partner.id (snd (Partner.changeName d newName p)) = Partner.id p /\
    Partner.getDomainEvents (snd (Partner.changeName d newName p))
      = Partner.getDomainEvents p
          ++ [PartnerNameChanged (randomUUID d) (now d) (Partner.id p) newName] /\
    length (Partner.getDomainEvents (snd (Partner.changeName d newName p)))
      = S (length (Partner.getDomainEvents p)).
Proof.
  intros d newName p. repeat split; try done.
  simpl. unfold Partner.getDomainEvents, AggregateRoot.getDomainEvents. simpl.
  rewrite length_app. simpl. lia.
Qed.

(** * The Spring pipeline *)

Lemma emit_nil (w : World) : emit [] w = w.
Proof. destruct w. unfold emit. simpl. by rewrite app_nil_r. Qed.

Lemma emit_emit (a b : list Obs) (w : World) : emit b (emit a w) = emit (a ++ b) w.
Proof. unfold emit. simpl. by rewrite app_assoc. Qed.

Lemma Forall_isDispatch_deliveries (ls : list ApplicationListener) (ev : DomainEvent) :
  Forall (fun o => isDispatch o = true) (deliveries ls ev).
Proof. unfold deliveries. apply Forall_map, Forall_forall. done. Qed.

Section Dispatch.

Variable listeners : list ApplicationListener.

(** Whatever the listeners do, [multicastEvent] only appends deliveries. *)
Lemma multicastEvent_emits (ls : list ApplicationListener) (ev : DomainEvent) (w : World) :
  exists ds, snd (multicastEvent ls ev w) = emit ds w
             /\ Forall (fun o => isDispatch o = true) ds.
Proof.
  revert w. induction ls as [|l ls IH]; intros w; simpl.
  - exists []. by rewrite emit_nil.
  - destruct (supportsEvent l ev); [|apply IH].
    destruct (onApplicationEvent l ev) as [ex|]; simpl.
    + exists [Delivered (listenerId l) ev]. split; [done|]. by repeat constructor.
    + destruct (IH (emit [Delivered (listenerId l) ev] w)) as (ds & -> & Hds).
      exists (Delivered (listenerId l) ev :: ds). rewrite emit_emit. split; [done|].
      by constructor.
Qed.

Lemma publishEvent_emits (ev : DomainEvent) (w : World) :
  exists ds, snd (publishEvent listeners ev w) = emit ds w
             /\ Forall (fun o => isDispatch o = true) ds.
Proof.
  unfold publishEvent.
  destruct (multicastEvent_emits listeners ev (emit [Published ev] w)) as (ds & -> & Hds).
  exists (Published ev :: ds). rewrite emit_emit. split; [done|]. by constructor.
Qed.

Lemma publishLoop_emits (evs : list DomainEvent) (w : World) :
  exists ds, snd (publishLoop listeners evs w) = emit ds w
             /\ Forall (fun o => isDispatch o = true) ds.
Proof.
  revert w. induction evs as [|ev evs IH]; intros w; simpl.
  - exists []. by rewrite emit_nil.
  - destruct (publishEvent_emits ev w) as (ds & Hw & Hds).
    destruct (publishEvent listeners ev w) as [[[]|ex] w']; simpl in Hw; subst w'.
    + destruct (IH (emit ds w)) as (ds' & -> & Hds').
      exists (ds ++ ds'). rewrite emit_emit. split; [done|]. by apply Forall_app.
    + by exists ds.
Qed.

(** [publishEvents] appends dispatches to the log and, when it returns,
  empties the buffer; it touches nothing else. *)
Lemma publishEvents_emits (r : Ref) (w : World) :
  exists ds, Forall (fun o => isDispatch o = true) ds /\
    (snd (publishEvents listeners r w) = emit ds w \/
     snd (publishEvents listeners r w) = clearEventsOf r (emit ds w)).
Proof.
  unfold publishEvents. destruct (heap w !! r) as [e|]; simpl.
  - destruct (publishLoop_emits (AggregateRoot.getDomainEvents (asAggregateRoot e)) w)
      as (ds & Hw & Hds).
    destruct (publishLoop listeners _ w) as [[[]|ex] w']; simpl in Hw; subst w';
      exists ds; simpl; auto.
  - exists []. rewrite emit_nil. auto.
Qed.

Lemma publishEvents_log (r : Ref) (w : World) :
  exists ds, Forall (fun o => isDispatch o = true) ds /\
    log (snd (publishEvents listeners r w)) = log w ++ ds /\
    synchronizationActive (snd (publishEvents listeners r w)) = synchronizationActive w /\
    synchronizations (snd (publishEvents listeners r w)) = synchronizations w.
Proof.
  destruct (publishEvents_emits r w) as (ds & Hds & [-> | ->]); by exists ds.
Qed.

(** *** The quiet case: no listener throws *)

Lemma multicastEvent_quiet (ls : list ApplicationListener) (ev : DomainEvent) (w : World) :
  quietOn ls ev ->
  multicastEvent ls ev w = (Normal (), emit (deliveries ls ev) w).
Proof.
  revert w. induction ls as [|l ls IH]; intros w Hq; simpl.
  - by rewrite emit_nil.
  - assert (quietOn ls ev) as Hq' by (intros l' Hl'; apply Hq; by right).
    unfold deliveries. rewrite filter_cons.
    destruct (supportsEvent l ev) eqn:Hs.
    + rewrite decide_True by done.
      rewrite (Hq l) by (done || by left). rewrite IH by done.
      by rewrite emit_emit.
    + rewrite decide_False by done. by apply IH.
Qed.

Lemma publishLoop_quiet (evs : list DomainEvent) (w : World) :
  (forall ev, ev ∈ evs -> quietOn listeners ev) ->
  publishLoop listeners evs w = (Normal (), emit (flat_map (dispatchOf listeners) evs) w).
Proof.
  revert w. induction evs as [|ev evs IH]; intros w Hq; simpl.
  - by rewrite emit_nil.
  - unfold publishEvent. rewrite multicastEvent_quiet by (apply Hq; by left).
    rewrite IH by (intros ev' Hev'; apply Hq; by right).
    by rewrite !emit_emit.
Qed.

Lemma publishEvents_quiet (r : Ref) (e : Entity) (w : World) :
  heap w !! r = Some e ->
  (forall ev, ev ∈ AggregateRoot.getDomainEvents (asAggregateRoot e) -> quietOn listeners ev) ->
  publishEvents listeners r w
    = (Normal (),
       clearEventsOf r
         (emit (flat_map (dispatchOf listeners)
                  (AggregateRoot.getDomainEvents (asAggregateRoot e))) w)).
Proof.
  intros Hr Hq. unfold publishEvents. rewrite Hr. by rewrite publishLoop_quiet.
Qed.

End Dispatch.

(** *** Buffers behind references *)

Lemma asAggregateRoot_with (f : AggregateRoot.t -> AggregateRoot.t) (e : Entity) :
  asAggregateRoot (withAggregateRoot f e) = f (asAggregateRoot e).
Proof. by destruct e. Qed.

Lemma pendingEvents_clear_eq (r : Ref) (w : World) :
  pendingEvents (heap (clearEventsOf r w)) r = [].
Proof.
  unfold pendingEvents, clearEventsOf. simpl. rewrite lookup_alter_eq.
  destruct (heap w !! r) as [e|]; simpl; [|done]. by rewrite asAggregateRoot_with.
Qed.

Lemma pendingEvents_clear_ne (r r' : Ref) (w : World) :
  r <> r' -> pendingEvents (heap (clearEventsOf r w)) r' = pendingEvents (heap w) r'.
Proof.
  intros Hne. unfold pendingEvents, clearEventsOf. simpl. by rewrite lookup_alter_ne.
Qed.

Lemma pendingEvents_clear_nil (r r' : Ref) (w : World) :
  pendingEvents (heap w) r' = [] -> pendingEvents (heap (clearEventsOf r w)) r' = [].
Proof.
  intros Hnil. destruct (decide (r = r')) as [->|Hne].
  - apply pendingEvents_clear_eq.
  - by rewrite pendingEvents_clear_ne.
Qed.

Lemma lookup_clear_is_Some (r r' : Ref) (w : World) :
  is_Some (heap w !! r') -> is_Some (heap (clearEventsOf r w) !! r').
Proof.
  intros [e He]. unfold clearEventsOf. simpl. rewrite lookup_alter.
  case_decide; subst; rewrite He; simpl; eauto.
Qed.

(** *** Completion callbacks *)

Lemma afterCompletion_committed (s : TransactionSynchronization) (w : World) :
  afterCompletion s STATUS_COMMITTED w = w.
Proof. done. Qed.

Lemma triggerAfterCompletion_committed (ss : list TransactionSynchronization) (w : World) :
  triggerAfterCompletion ss STATUS_COMMITTED w = w.
Proof. revert w. induction ss as [|s ss IH]; intros w; simpl; [done|]. by rewrite IH. Qed.

Lemma triggerAfterCompletion_log (ss : list TransactionSynchronization) (status : Z)
    (w : World) :
  log (triggerAfterCompletion ss status w) = log w.
Proof.
  revert w. induction ss as [|s ss IH]; intros w; simpl; [done|].
  rewrite IH. unfold afterCompletion. by case_bool_decide.
Qed.

Lemma triggerAfterCompletion_keeps_nil (ss : list TransactionSynchronization) (r : Ref)
    (w : World) :
  pendingEvents (heap w) r = [] ->
  pendingEvents (heap (triggerAfterCompletion ss STATUS_ROLLED_BACK w)) r = [].
Proof.
  revert w. induction ss as [|s ss IH]; intros w Hnil; simpl; [done|].
  apply IH. unfold afterCompletion. rewrite bool_decide_true by done.
  by apply pendingEvents_clear_nil.
Qed.

Lemma triggerAfterCompletion_rolled_back (ss : list TransactionSynchronization)
    (s : TransactionSynchronization) (w : World) :
  s ∈ ss ->
  pendingEvents (heap (triggerAfterCompletion ss STATUS_ROLLED_BACK w)) (capturedAggregate s)
    = [].
Proof.
  revert w. induction ss as [|s' ss IH]; intros w Hin; [by apply elem_of_nil in Hin|].
  apply elem_of_cons in Hin as [->|Hin]; simpl.
  - apply triggerAfterCompletion_keeps_nil. unfold afterCompletion.
    rewrite bool_decide_true by done. apply pendingEvents_clear_eq.
  - by apply IH.
Qed.

Section Transaction.

Variable listeners : list ApplicationListener.

(** Inside a transaction a statement neither writes to the log nor ends the
  synchronization: [publishAfterCommit] only registers. *)
Lemma exec_in_transaction (s : Stmt) (w : World) :
  synchronizationActive w = true ->
  log (snd (exec listeners s w)) = log w /\
  synchronizationActive (snd (exec listeners s w)) = true.
Proof.
  intros Hact. destruct s; simpl; try done.
  - unfold onPartner. destruct (heap w !! partner) as [[p|o]|]; simpl; done.
  - unfold onOrder. destruct (heap w !! order) as [[p|o]|]; simpl; try done.
    by destruct (Order.pay d o).
  - unfold onOrder. destruct (heap w !! order) as [[p|o]|]; simpl; try done.
    by destruct (Order.cancel d o).
  - unfold publishAfterCommit. by rewrite Hact.
Qed.

Lemma execAll_in_transaction (body : list Stmt) (w : World) :
  synchronizationActive w = true ->
  log (snd (execAll listeners body w)) = log w /\
  synchronizationActive (snd (execAll listeners body w)) = true.
Proof.
  revert w. induction body as [|s body IH]; intros w Hact; simpl; [done|].
  destruct (exec_in_transaction s w Hact) as [Hlog Hact'].
  destruct (exec listeners s w) as [[[]|ex] w']; simpl in *; [|done].
  destruct (IH w' Hact') as [Hlog' Hact'']. by rewrite Hlog', Hlog.
Qed.

Lemma triggerAfterCommit_log (ss : list TransactionSynchronization) (w : World) :
  exists ds, Forall (fun o => isDispatch o = true) ds /\
    log (snd (triggerAfterCommit listeners ss w)) = log w ++ ds.
Proof.
  revert w. induction ss as [|s ss IH]; intros w; simpl.
  - exists []. by rewrite app_nil_r.
  - unfold afterCommit.
    destruct (publishEvents_log listeners (capturedAggregate s) w) as (ds & Hds & Hlog & _).
    destruct (publishEvents listeners (capturedAggregate s) w) as [[[]|ex] w']; simpl in *.
    + destruct (IH w') as (ds' & Hds' & Hlog'). exists (ds ++ ds').
      split; [by apply Forall_app|]. by rewrite Hlog', Hlog, app_assoc.
    + by exists ds.
Qed.

Lemma processCommit_log (w : World) :
  exists ds, Forall (fun o => isDispatch o = true) ds /\
    log (snd (processCommit listeners w)) = log w ++ Committed :: ds.
Proof.
  unfold processCommit.
  destruct (triggerAfterCommit_log (synchronizations w) (emit [Committed] w))
    as (ds & Hds & Hlog).
  destruct (triggerAfterCommit listeners _ _) as [c w2]. simpl in *.
  exists ds. split; [done|].
  by rewrite triggerAfterCompletion_log, Hlog, <- app_assoc.
Qed.

Lemma processRollback_log (w : World) :
  log (processRollback w) = log w ++ [RolledBack].
Proof. unfold processRollback. simpl. by rewrite triggerAfterCompletion_log. Qed.

(** The log of a whole transactional call: the commit mark and then
  dispatches, or the rollback mark alone. *)
Lemma transactional_log (body : list Stmt) (w : World) :
  exists ds, Forall (fun o => isDispatch o = true) ds /\
    (log (snd (transactional listeners body w)) = log w ++ Committed :: ds \/
     log (snd (transactional listeners body w)) = log w ++ [RolledBack]).
Proof.
  unfold transactional.
  destruct (execAll_in_transaction body (beginTransaction w) eq_refl) as [Hlog _].
  destruct (execAll listeners body (beginTransaction w)) as [[[]|ex] w']; simpl in Hlog.
  - destruct (processCommit_log w') as (ds & Hds & Hlog').
    exists ds. split; [done|]. left. by rewrite Hlog', Hlog.
  - exists []. split; [done|]. right. cbn [snd]. by rewrite processRollback_log, Hlog.
Qed.

(** All the synchronizations of a commit, when no listener throws on the
  events they publish. *)
Lemma triggerAfterCommit_quiet (ss : list TransactionSynchronization) (w : World) :
  NoDup (map capturedAggregate ss) ->
  (forall r, r ∈ map capturedAggregate ss -> is_Some (heap w !! r)) ->
  (forall r ev, r ∈ map capturedAggregate ss -> ev ∈ pendingEvents (heap w) r ->
     quietOn listeners ev) ->
  fst (triggerAfterCommit listeners ss w) = Normal () /\
  log (snd (triggerAfterCommit listeners ss w))
    = log w ++ flat_map (fun r => flat_map (dispatchOf listeners) (pendingEvents (heap w) r))
                 (map capturedAggregate ss).
Proof.
  revert w. induction ss as [|s ss IH]; intros w Hnd Hin Hq; simpl.
  - by rewrite app_nil_r.
  - simpl in Hnd. apply NoDup_cons in Hnd as [Hs Hnd].
    destruct (Hin (capturedAggregate s)) as [e He]; [by left|].
    unfold afterCommit. rewrite (publishEvents_quiet listeners _ e) by
      (done || (intros ev Hev; apply (Hq (capturedAggregate s)); [by left|];
                unfold pendingEvents; by rewrite He)).
    set (w' := clearEventsOf _ _).
    assert (forall r, r ∈ map capturedAggregate ss ->
              pendingEvents (heap w') r = pendingEvents (heap w) r) as Hsame.
    { intros r Hr. unfold w'. rewrite pendingEvents_clear_ne; [done|].
      intros <-. done. }
    destruct (IH w') as [Hfst Hlog]; [done| | |].
    + intros r Hr. apply lookup_clear_is_Some. simpl. apply Hin. by right.
    + intros r ev Hr Hev. rewrite Hsame in Hev by done. apply (Hq r); [by right|done].
    + split; [done|]. rewrite Hlog. unfold w' at 1. simpl. rewrite <- app_assoc.
      f_equal. f_equal.
      * unfold pendingEvents. by rewrite He.
      * clear -Hsame. induction ss as [|s' ss IH']; simpl; [done|].
        rewrite Hsame by (by left). f_equal. apply IH'. intros r Hr. apply Hsame. by right.
Qed.

End Transaction.

Lemma publishedEvents_app (a b : list Obs) :
  publishedEvents (a ++ b) = publishedEvents a ++ publishedEvents b.
Proof. unfold publishedEvents. by rewrite flat_map_app. Qed.

Lemma publishedEvents_deliveries (ls : list ApplicationListener) (ev : DomainEvent) :
  publishedEvents (deliveries ls ev) = [].
Proof.
  unfold deliveries. induction (filter _ ls) as [|l ls' IH]; simpl; [done|]. apply IH.
Qed.

Lemma publishedEvents_dispatch (ls : list ApplicationListener) (evs : list DomainEvent) :
  publishedEvents (flat_map (dispatchOf ls) evs) = evs.
Proof.
  induction evs as [|ev evs IH]; [done|].
  change (flat_map (dispatchOf ls) (ev :: evs))
    with ([Published ev] ++ deliveries ls ev ++ flat_map (dispatchOf ls) evs).
  by rewrite !publishedEvents_app, publishedEvents_deliveries, IH.
Qed.

(** * The NestJS pipeline *)

Section NestFacts.

Import Nest NestLog.

Lemma emittedIn_app (p : Phase) (a b : list Nest.Obs) :
  emittedIn p (a ++ b) = emittedIn p a ++ emittedIn p b.
Proof. unfold emittedIn. by rewrite flat_map_app. Qed.

Lemma emittedIn_handled (p q : Phase) (event : DomainEvent) (hs : list Handler) :
  emittedIn p (map (fun h => Handled q (handlerId h) event) hs) = [].
Proof. induction hs as [|h hs IH]; simpl; [done|]. apply IH. Qed.


Lemma emitAsync_spec (p : Phase) (emitter : EventEmitter2) (name : string)
    (event : DomainEvent) (l : list Nest.Obs) :
  exists added, snd (emitAsync p emitter name event l) = l ++ added /\
    Forall (inPhase p) added /\ emittedIn p added = [event].
Proof.
  unfold emitAsync. simpl. eexists. split; [done|]. split.
  - constructor; [done|]. apply Forall_map, Forall_forall. done.
  - change (?o :: ?t) with ([o] ++ t). rewrite emittedIn_app, emittedIn_handled.
    by destruct p.
Qed.

Lemma emitEach_spec (p : Phase) (emitter : EventEmitter2) (evs : list DomainEvent)
    (l : list Nest.Obs) :
  exists added, snd (emitEach p emitter evs l) = l ++ added /\
    Forall (inPhase p) added /\
    (fst (emitEach p emitter evs l) = Resolved -> emittedIn p added = evs).
Proof.
  revert l. induction evs as [|ev evs IH]; intros l; cbn [emitEach].
  - exists []. by rewrite app_nil_r.
  - destruct (emitAsync_spec p emitter (getEventName ev) ev l) as (a1 & Hl1 & Hp1 & He1).
    destruct (emitAsync p emitter (getEventName ev) ev l) as [[|reason] l1];
      simpl in Hl1; subst l1.
    + destruct (IH (l ++ a1)) as (a2 & Hl2 & Hp2 & He2).
      exists (a1 ++ a2). rewrite Hl2, app_assoc. split; [done|].
      split; [by apply Forall_app|]. intros Hres.
      by rewrite emittedIn_app, He1, He2.
    + exists a1. by repeat split.
Qed.

Lemma handOffEach_spec (emitter : EventEmitter2) (evs : list DomainEvent)
    (l : list Nest.Obs) :
  exists added, handOffEach emitter evs l = l ++ added /\
    Forall (inPhase IntegrationPhase) added /\
    emittedIn IntegrationPhase added = evs.
Proof.
  revert l. induction evs as [|ev evs IH]; intros l; cbn [handOffEach].
  - exists []. by rewrite app_nil_r.
  - destruct (emitAsync_spec IntegrationPhase emitter (getEventName ev) ev l)
      as (a1 & -> & Hp1 & He1).
    destruct (IH (l ++ a1)) as (a2 & -> & Hp2 & He2).
    exists (a1 ++ a2). rewrite app_assoc. split; [done|].
    split; [by apply Forall_app|]. by rewrite emittedIn_app, He1, He2.
Qed.

Lemma publishForIntegrationEvent_spec (m : DomainEventManager) (a : AggregateRoot)
    (l : list Nest.Obs) :
  exists added, snd (publishForIntegrationEvent m a l) = l ++ added /\
    Forall (inPhase IntegrationPhase) added /\
    (fst (publishForIntegrationEvent m a l) = Resolved ->
     emittedIn IntegrationPhase added = events a).
Proof.
  unfold publishForIntegrationEvent. simpl.
  destruct (handOffEach_spec (integrationEventsSubscriber m) (events a) l)
    as (added & -> & Hp & He).
  exists added. by repeat split.
Qed.

(** A loop over the tracked aggregates, for a body that stays in its phase. *)
Lemma forEachRoot_spec (p : Phase)
    (f : AggregateRoot -> list Nest.Obs -> Settled * list Nest.Obs)
    (roots : list AggregateRoot) (l : list Nest.Obs) :
  (forall a l', exists added, snd (f a l') = l' ++ added /\ Forall (inPhase p) added /\
                  (fst (f a l') = Resolved -> emittedIn p added = events a)) ->
  exists added, snd (forEachRoot f roots l) = l ++ added /\
    Forall (inPhase p) added /\
    (fst (forEachRoot f roots l) = Resolved -> emittedIn p added = flat_map events roots).
Proof.
  intros Hf. revert l. induction roots as [|a roots IH]; intros l; simpl.
  - exists []. by rewrite app_nil_r.
  - destruct (Hf a l) as (a1 & Hl1 & Hp1 & He1).
    destruct (f a l) as [[|reason] l1]; simpl in Hl1, He1; subst l1; simpl.
    + destruct (IH (l ++ a1)) as (a2 & Hl2 & Hp2 & He2).
      exists (a1 ++ a2). rewrite Hl2, app_assoc. split; [done|].
      split; [by apply Forall_app|]. intros Hres.
      by rewrite emittedIn_app, He1, He2.
    + exists a1. by repeat split.
Qed.

(** The log of [finish]: the domain phase, then the flush, then the
  integration phase; a rejection cuts it short. *)
Lemma finish_spec (m : DomainEventManager) (w : Nest.World) :
  exists dom integ,
    Forall (inPhase DomainPhase) dom /\ Forall (inPhase IntegrationPhase) integ /\
    ((fst (finish m w) <> Resolved /\ integ = [] /\
      Nest.log (snd (finish m w)) = Nest.log w ++ dom) \/
     (Nest.log (snd (finish m w)) = Nest.log w ++ dom ++ Flushed :: integ /\
      emittedIn DomainPhase dom = flat_map events (getAggregateRoots w) /\
      (fst (finish m w) = Resolved ->
         emittedIn IntegrationPhase integ = flat_map events (getAggregateRoots w)))).
Proof.
  unfold finish.
  destruct (forEachRoot_spec DomainPhase (publish m) (getAggregateRoots w) (Nest.log w))
    as (dom & Hl1 & Hp1 & He1).
  { intros a l'. apply emitEach_spec. }
  destruct (forEachRoot (publish m) _ _) as [[|reason] l1]; simpl in Hl1, He1; subst l1.
  - unfold commit, flush. simpl. destruct (databaseUp (em w)); simpl.
    + destruct (forEachRoot_spec IntegrationPhase (publishForIntegrationEvent m)
                  (getAggregateRoots w) ((Nest.log w ++ dom) ++ [Flushed]))
        as (integ & Hl2 & Hp2 & He2).
      { intros a l'. apply publishForIntegrationEvent_spec. }
      destruct (forEachRoot (publishForIntegrationEvent m) _ _) as [s l3].
      simpl in *. subst l3. exists dom, integ. split; [done|]. split; [done|]. right.
      split; [by rewrite <- !app_assoc|]. split; [by apply He1|done].
    + exists dom, []. split; [done|]. split; [done|]. left. by repeat split.
  - exists dom, []. split; [done|]. split; [done|]. left. by repeat split.
Qed.

(** [commit] has no state to consult: with the database up it resolves and
  leaves the database up. *)
Lemma commit_resolves (w : Nest.World) :
  databaseUp (em w) = true ->
  fst (commit w) = Resolved /\ databaseUp (em (snd (commit w))) = true.
Proof. intros Hup. unfold commit, flush. by rewrite Hup. Qed.

End NestFacts.

(** * Ordering and failure properties of the pipelines *)

(** C1, as the code has it.  In the Spring pipeline the log of a
  transactional call is the commit mark followed by dispatches, or the
  rollback mark alone: nothing is delivered before the commit.  In
  [ApplicationService.finish] the domain handlers run first, the flush
  comes after them, and only the integration handlers run after the
  flush. *)
Theorem C1_dispatch_relative_to_commit :
  (forall (listeners : list ApplicationListener) (body : list Stmt) (w : World),
     exists ds, Forall (fun o => isDispatch o = true) ds /\
       (log (snd (transactional listeners body w)) = log w ++ Committed :: ds \/
        log (snd (transactional listeners body w)) = log w ++ [RolledBack])) /\
  (forall (m : Nest.DomainEventManager) (w : Nest.World),
     exists dom integ,
       Forall (NestLog.inPhase Nest.DomainPhase) dom /\
       Forall (NestLog.inPhase Nest.IntegrationPhase) integ /\
       (Nest.log (snd (Nest.finish m w)) = Nest.log w ++ dom \/
        Nest.log (snd (Nest.finish m w)) = Nest.log w ++ dom ++ Nest.Flushed :: integ)).
Proof.
  split.
  - intros listeners body w. apply transactional_log.
  - intros m w. destruct (finish_spec m w) as (dom & integ & Hd & Hi & [(_ & _ & H)|(H & _)]);
      exists dom, integ; auto.
Qed.

(** C1 fails as stated: [finish] hands the event to the domain handler
  before the flush, and with the database down the handler has seen an
  event whose commit never succeeds. *)
Lemma C1_counterexample :
  Nest.log (snd (Nest.finish NestSample.manager NestSample.worldUp))
    = [Nest.Emitted Nest.DomainPhase NestSample.partnerCreated;
       Nest.Handled Nest.DomainPhase 1 NestSample.partnerCreated;
       Nest.Flushed;
       Nest.Emitted Nest.IntegrationPhase NestSample.partnerCreated;
       Nest.Handled Nest.IntegrationPhase 2 NestSample.partnerCreated] /\
  Nest.finish NestSample.manager NestSample.worldDown
    = (Nest.Rejected "flush failed",
       {| Nest.em := Nest.em NestSample.worldDown;
          Nest.log := [Nest.Emitted Nest.DomainPhase NestSample.partnerCreated;
                       Nest.Handled Nest.DomainPhase 1 NestSample.partnerCreated] |}).
Proof. split; reflexivity. Qed.

(** C2. Inside a transaction, whatever the use case did, a rollback adds
  only its own mark to the log: no event was published or delivered.
  Afterwards the buffer of every aggregate handed to [publishAfterCommit]
  is empty, so a later [publishEvents] on it has nothing to dispatch. *)
Theorem C2_rollback_discards_events :
  forall (listeners : list ApplicationListener) (body : list Stmt) (w : World),
    synchronizationActive w = true ->
    log (processRollback (snd (execAll listeners body w))) = log w ++ [RolledBack] /\
    (forall r, r ∈ trackedAggregates (snd (execAll listeners body w)) ->
       pendingEvents (heap (processRollback (snd (execAll listeners body w)))) r = []) /\
    (forall r, r ∈ trackedAggregates (snd (execAll listeners body w)) ->
       log (snd (publishEvents listeners r (processRollback (snd (execAll listeners body w)))))
         = log w ++ [RolledBack]).
Proof.
  intros listeners body w Hact.
  destruct (execAll_in_transaction listeners body w Hact) as [Hlog _].
  set (w1 := snd (execAll listeners body w)) in *.
  assert (forall r, r ∈ trackedAggregates w1 ->
            pendingEvents (heap (processRollback w1)) r = []) as Hclear.
  { intros r Hr. unfold trackedAggregates in Hr.
    apply list_elem_of_fmap in Hr as (s & -> & Hs).
    unfold processRollback. simpl. by apply triggerAfterCompletion_rolled_back. }
  split; [by rewrite processRollback_log, Hlog|]. split; [done|].
  intros r Hr. specialize (Hclear r Hr). rewrite <- Hlog, <- processRollback_log.
  unfold publishEvents. unfold pendingEvents in Hclear.
  destruct (heap (processRollback w1) !! r) as [e|]; [|done].
  by rewrite Hclear.
Qed.

Lemma C2_witness :
  log (processRollback (snd (execAll [recordingListener] createAndRename
                               (beginTransaction emptyWorld))))
    = log (beginTransaction emptyWorld) ++ [RolledBack] /\
  pendingEvents
    (heap (processRollback (snd (execAll [recordingListener] createAndRename
                                   (beginTransaction emptyWorld))))) 0%nat = [].
Proof.
  destruct (C2_rollback_discards_events [recordingListener] createAndRename
              (beginTransaction emptyWorld)) as (Hlog & Hclear & _).
  - reflexivity.
  - split; [exact Hlog|]. apply Hclear. vm_compute. left.
Defined.


(** C7. In the log of one [finish], a domain handler invocation always
  comes before the flush and an integration handler invocation after it:
  every domain handler has been awaited before the first integration
  handler is called. *)
Theorem C7_domain_handlers_before_integration :
  forall (m : Nest.DomainEventManager) (w : Nest.World) (added : list Nest.Obs)
         (i j : nat) (h h' : nat) (e e' : DomainEvent),
    Nest.log (snd (Nest.finish m w)) = Nest.log w ++ added ->
    added !! i = Some (Nest.Handled Nest.IntegrationPhase h e) ->
    added !! j = Some (Nest.Handled Nest.DomainPhase h' e') ->
    exists k, (j < k)%nat /\ (k < i)%nat /\ added !! k = Some Nest.Flushed.
Proof.
  intros m w added i j h h' e e' Hadded Hi Hj.
  destruct (finish_spec m w) as (dom & integ & Hd & Hg & [(_ & _ & Hlog)|(Hlog & _)]);
    rewrite Hadded in Hlog; apply app_inv_head in Hlog; subst added.
  - eapply Forall_lookup_1 in Hi; [|exact Hd]. done.
  - exists (length dom).
    assert (j < length dom)%nat as Hjlt.
    { destruct (decide (j < length dom)%nat) as [|Hge]; [done|].
      rewrite lookup_app_r in Hj by lia.
      destruct (j - length dom)%nat as [|n] eqn:Hn; simpl in Hj; [done|].
      eapply Forall_lookup_1 in Hj; [|exact Hg]. done. }
    assert (length dom < i)%nat as Hilt.
    { destruct (decide (i < length dom)%nat) as [Hlt|Hge].
      - rewrite lookup_app_l in Hi by done.
        eapply Forall_lookup_1 in Hi; [|exact Hd]. done.
      - destruct (decide (i = length dom)) as [->|Hne]; [|lia].
        rewrite lookup_app_r in Hi by lia. by rewrite Nat.sub_diag in Hi. }
    split; [done|]. split; [done|].
    rewrite lookup_app_r by lia. by rewrite Nat.sub_diag.
Qed.

Lemma C7_witness :
  exists k, (1 < k)%nat /\ (k < 4)%nat /\
    [Nest.Emitted Nest.DomainPhase NestSample.partnerCreated;
     Nest.Handled Nest.DomainPhase 1 NestSample.partnerCreated;
     Nest.Flushed;
     Nest.Emitted Nest.IntegrationPhase NestSample.partnerCreated;
     Nest.Handled Nest.IntegrationPhase 2 NestSample.partnerCreated] !! k
      = Some Nest.Flushed.
Proof.
  apply (C7_domain_handlers_before_integration NestSample.manager NestSample.worldUp
           _ 4%nat 1%nat 2%nat 1%nat NestSample.partnerCreated NestSample.partnerCreated).
  - reflexivity.
  - reflexivity.
  - reflexivity.
Defined.

(** * Further properties of the aggregates *)

(** X1. The buffer keeps the recording order: after [addEvent] has been
  called for each event of a list, [getDomainEvents] returns what was
  pending before followed by that list. *)
Theorem X1_buffer_keeps_recording_order :
  forall (events : list DomainEvent) (a : AggregateRoot.t),
    AggregateRoot.getDomainEvents (recordAll events a)
      = AggregateRoot.getDomainEvents a ++ events.
Proof.
  unfold recordAll. induction events as [|e events IH]; intros a; simpl.
  - by rewrite app_nil_r.
  - rewrite IH. unfold AggregateRoot.addEvent, AggregateRoot.getDomainEvents. simpl.
    by rewrite <- app_assoc.
Qed.

(** X2. [hasEvents] tells whether the buffer is non-empty: it is true after
  any [addEvent], false after [clearEvents], and clearing twice is
  clearing once. *)
Theorem X2_hasEvents_and_clearEvents :
  forall (a : AggregateRoot.t) (e : DomainEvent),
    (AggregateRoot.hasEvents a = true <-> AggregateRoot.getDomainEvents a <> []) /\
    AggregateRoot.hasEvents (AggregateRoot.addEvent e a) = true /\
    AggregateRoot.hasEvents (AggregateRoot.clearEvents a) = false /\
    AggregateRoot.clearEvents (AggregateRoot.clearEvents a) = AggregateRoot.clearEvents a.
Proof.
  intros [evs] e. unfold AggregateRoot.hasEvents, AggregateRoot.getDomainEvents. simpl.
  split; [|split; [|done]].
  - case_bool_decide; simpl; split; intros H'; done.
  - rewrite bool_decide_false; [done|]. by destruct evs.
Qed.

Lemma invokeAll_invariant (P : Order.t -> Prop) (cs : list OrderCall) (o : Order.t) :
  P o -> (forall c o', P o' -> P (snd (invoke c o'))) -> P (invokeAll cs o).
Proof.
  intros Ho Hstep. unfold invokeAll. revert o Ho.
  induction cs as [|c cs IH]; intros o Ho; simpl; [done|]. apply IH. by apply Hstep.
Qed.

Lemma invoke_cases (c : OrderCall) (o : Order.t) :
  (exists msg, invoke c o = (Thrown (IllegalStateException msg), o)) \/
  (exists e s, invoke c o = (Normal (), Order.addEvent e (Order.setStatus s o)) /\
     eventStatus e = Some s /\ Order.status o <> PAID /\
     ((s = PAID /\ isOrderPaid e = true /\ isOrderCancelled e = false
         /\ Order.status o = PENDING) \/
      (s = CANCELLED /\ isOrderPaid e = false /\ isOrderCancelled e = true))).
Proof.
  destruct c as [d|d]; simpl.
  - unfold Order.pay. case_bool_decide as Hs; [left; eauto|]. right.
    assert (Order.status o = PENDING) as Hp by (by destruct (Order.status o)).
    eexists _, PAID. split; [done|]. split; [done|]. split; [by rewrite Hp|].
    left. done.
  - unfold Order.cancel. case_bool_decide as Hs; [left; eauto|]. right.
    eexists _, CANCELLED. split; [done|]. split; [done|]. split; [done|].
    right. done.
Qed.

(** X3. On an order made by [create] and then put through any sequence of
  [pay] and [cancel] calls, the event recorded last carries the current
  status of the order. *)
Theorem X3_last_event_carries_status :
  forall (cs : list OrderCall) (idDraw : UUID) (d : Draw)
         (customerId eventSpotId : string) (amount : BigDecimal),
    eventStatus <$>
      last (Order.getDomainEvents
              (invokeAll cs (Order.create idDraw d customerId eventSpotId amount)))
    = Some (Some (Order.status
                    (invokeAll cs (Order.create idDraw d customerId eventSpotId amount)))).
Proof.
  intros cs idDraw d customerId eventSpotId amount.
  apply (invokeAll_invariant
           (fun o => eventStatus <$> last (Order.getDomainEvents o)
                     = Some (Some (Order.status o)))); [done|].
  intros c o Ho. destruct (invoke_cases c o) as [[msg ->]|(e & s & -> & He & _)]; [done|].
  simpl. unfold Order.getDomainEvents, AggregateRoot.getDomainEvents. simpl.
  rewrite last_snoc. simpl. by rewrite He.
Qed.

(** X4. PAID is final: on a paid order every further sequence of [pay] and
  [cancel] calls leaves the order, buffer included, exactly as it is. *)
Theorem X4_paid_is_final :
  forall (cs : list OrderCall) (o : Order.t),
    Order.status o = PAID -> invokeAll cs o = o.
Proof.
  intros cs o Hpaid.
  apply (invokeAll_invariant (fun o' => o' = o)); [done|].
  intros c o' ->. destruct (invoke_cases c o) as [[msg ->]|(e & s & _ & _ & Hne & _)]; done.
Qed.

Lemma X4_witness : invokeAll [CallCancel draw3; CallPay draw3] paidOrder = paidOrder.
Proof. apply X4_paid_is_final. reflexivity. Defined.

(** X5. What an uncleared buffer says about an order made by [create]: it
  holds one [OrderPaid] exactly when the order is PAID and none otherwise,
  and it holds an [OrderCancelled] exactly when the order is CANCELLED.  An
  order is never recorded as both paid and cancelled. *)
Theorem X5_buffer_agrees_with_status :
  forall (cs : list OrderCall) (idDraw : UUID) (d : Draw)
         (customerId eventSpotId : string) (amount : BigDecimal),
    length (filter (fun e => isOrderPaid e = true)
              (Order.getDomainEvents
                 (invokeAll cs (Order.create idDraw d customerId eventSpotId amount))))
      = (if bool_decide (Order.status
                           (invokeAll cs (Order.create idDraw d customerId eventSpotId amount))
                         = PAID) then 1%nat else 0%nat) /\
    (filter (fun e => isOrderCancelled e = true)
       (Order.getDomainEvents
          (invokeAll cs (Order.create idDraw d customerId eventSpotId amount))) <> []
     <-> Order.status (invokeAll cs (Order.create idDraw d customerId eventSpotId amount))
         = CANCELLED).
Proof.
  intros cs idDraw d customerId eventSpotId amount.
  pose (P := fun o : Order.t =>
              length (filter (fun e => isOrderPaid e = true) (Order.getDomainEvents o))
                = (if bool_decide (Order.status o = PAID) then 1%nat else 0%nat) /\
              (filter (fun e => isOrderCancelled e = true) (Order.getDomainEvents o) <> []
               <-> Order.status o = CANCELLED)).
  change (P (invokeAll cs (Order.create idDraw d customerId eventSpotId amount))).
  apply invokeAll_invariant; unfold P; clear P.
  - split; [done|]. simpl. split; intros H'; done.
  - intros c o [Hpaid Hcan].
    destruct (invoke_cases c o)
      as [[msg ->]|(e & s & -> & _ & Hne & [(-> & Hp & Hc & Hpend)|(-> & Hp & Hc)])];
      [done| |]; simpl;
      unfold Order.getDomainEvents, AggregateRoot.getDomainEvents in *; simpl;
      rewrite !filter_app, !filter_cons, !filter_nil, Hp, Hc; simpl.
    + rewrite length_app, Hpaid, bool_decide_false by done. simpl.
      split; [done|]. rewrite app_nil_r, Hcan, Hpend. split; intros H'; done.
    + rewrite app_nil_r, Hpaid, bool_decide_false by done.
      split; [done|]. split; [done|]. intros _. by intros [_ ?]%app_eq_nil.
Qed.

(** X6. No sequence of [pay] and [cancel] calls changes the id, the
  customer, the spot or the amount of an order, and none removes or
  rewrites an event: the buffer before is a prefix of the buffer after. *)
Theorem X6_calls_keep_identity_and_history :
  forall (cs : list OrderCall) (o : Order.t),
    Order.id (invokeAll cs o) = Order.id o /\
    Order.customerId (invokeAll cs o) = Order.customerId o /\
    Order.eventSpotId (invokeAll cs o) = Order.eventSpotId o /\
    Order.amount (invokeAll cs o) = Order.amount o /\
    Order.getDomainEvents o `prefix_of` Order.getDomainEvents (invokeAll cs o).
Proof.
  intros cs o.
  apply (invokeAll_invariant
           (fun o' => Order.id o' = Order.id o /\
                      Order.customerId o' = Order.customerId o /\
                      Order.eventSpotId o' = Order.eventSpotId o /\
                      Order.amount o' = Order.amount o /\
                      Order.getDomainEvents o `prefix_of` Order.getDomainEvents o')).
  - by repeat split.
  - intros c o' (Hid & Hc & Hs & Ha & Hpre).
    destruct (invoke_cases c o') as [[msg ->]|(e & s & -> & _)]; [done|]. simpl.
    repeat split; try done.
    unfold Order.getDomainEvents, AggregateRoot.getDomainEvents in *. simpl.
    by apply prefix_app_r.
Qed.

Lemma renameAll_events (renames : list (Draw * string)) (p : Partner.t) :
  Partner.id (renameAll renames p) = Partner.id p /\
  forall e, e ∈ Partner.getDomainEvents (renameAll renames p) ->
    e ∈ Partner.getDomainEvents p \/
    exists r, r ∈ renames /\
      e = PartnerNameChanged (randomUUID (fst r)) (now (fst r)) (Partner.id p) (snd r).
Proof.
  unfold renameAll. revert p. induction renames as [|[d n] renames IH]; intros p; simpl.
  - split; [done|]. intros e He. by left.
  - destruct (IH (Partner.addEvent
                    (newPartnerNameChanged d (Partner.id p) n)
                    {| Partner.super := Partner.super p; Partner.id := Partner.id p;
                       Partner.name := n |})) as (Hid & Hevs).
    simpl in *. split; [done|]. intros e He. destruct (Hevs e He) as [Hin|(r & Hr & ->)].
    + unfold Partner.getDomainEvents, AggregateRoot.getDomainEvents in Hin. simpl in Hin.
      apply elem_of_app in Hin as [Hin|Hin]; [by left|].
      apply list_elem_of_singleton in Hin as ->. right. exists (d, n). split; [by left|done].
    + right. exists r. split; [by right|done].
Qed.

(** X7. After any sequence of [changeName] calls a partner has the id it
  had, the name given last, and one [PartnerNameChanged] per call, in call
  order, after the events that were pending. *)
Theorem X7_renames_accumulate :
  forall (renames : list (Draw * string)) (p : Partner.t),
    Partner.id (renameAll renames p) = Partner.id p /\
    Partner.name (renameAll renames p) = default (Partner.name p) (last (map snd renames)) /\
    Partner.getDomainEvents (renameAll renames p)
      = Partner.getDomainEvents p
          ++ map (fun r => PartnerNameChanged (randomUUID (fst r)) (now (fst r))
                             (Partner.id p) (snd r)) renames.
Proof.
  unfold renameAll. induction renames as [|[d n] renames IH]; intros p; simpl.
  - by rewrite app_nil_r.
  - destruct (IH (Partner.addEvent
                    (newPartnerNameChanged d (Partner.id p) n)
                    {| Partner.super := Partner.super p; Partner.id := Partner.id p;
                       Partner.name := n |})) as (Hid & Hname & Hevs).
    simpl in *. split; [done|]. split.
    + rewrite Hname. destruct renames as [|r renames]; [done|].
      change (last (n :: map snd (r :: renames))) with (last (map snd (r :: renames))).
      destruct (last (map snd (r :: renames))) eqn:E; [done|].
      by apply last_None in E.
    + rewrite Hevs. unfold Partner.getDomainEvents, AggregateRoot.getDomainEvents. simpl.
      by rewrite <- app_assoc.
Qed.

(** X24. Every event in the buffer of an aggregate made by [create]
  carries the id of that aggregate, the string of the UUID drawn at
  creation, whatever [pay], [cancel] and [changeName] calls followed. *)
Theorem X24_events_carry_the_aggregate_id :
  forall (idDraw : UUID) (d : Draw) (e : DomainEvent),
    (forall (cs : list OrderCall) (customerId eventSpotId : string) (amount : BigDecimal),
       e ∈ Order.getDomainEvents
             (invokeAll cs (Order.create idDraw d customerId eventSpotId amount)) ->
       aggregateIdOf e = UUID_toString idDraw /\
       Order.id (invokeAll cs (Order.create idDraw d customerId eventSpotId amount))
         = UUID_toString idDraw) /\
    (forall (renames : list (Draw * string)) (name : string),
       e ∈ Partner.getDomainEvents (renameAll renames (Partner.create idDraw d name)) ->
       aggregateIdOf e = UUID_toString idDraw /\
       Partner.id (renameAll renames (Partner.create idDraw d name))
         = UUID_toString idDraw).
Proof.
  intros idDraw d e. split.
  - intros cs customerId eventSpotId amount.
    pose (P := fun o : Order.t =>
                 Order.id o = UUID_toString idDraw /\
                 forall e', e' ∈ Order.getDomainEvents o ->
                            aggregateIdOf e' = UUID_toString idDraw).
    assert (P (invokeAll cs (Order.create idDraw d customerId eventSpotId amount)))
      as [Hid Hall]; [|by split; [apply Hall|]].
    apply invokeAll_invariant; unfold P; clear P.
    + split; [done|]. intros e' He'. by apply list_elem_of_singleton in He' as ->.
    + intros c o [Hid Hall]. destruct c as [d'|d']; simpl.
      * unfold Order.pay. case_bool_decide; simpl; [done|]. split; [done|].
        unfold Order.getDomainEvents, AggregateRoot.getDomainEvents in *. simpl.
        intros e' [He'|He']%elem_of_app; [by apply Hall|].
        by apply list_elem_of_singleton in He' as ->.
      * unfold Order.cancel. case_bool_decide; simpl; [done|]. split; [done|].
        unfold Order.getDomainEvents, AggregateRoot.getDomainEvents in *. simpl.
        intros e' [He'|He']%elem_of_app; [by apply Hall|].
        by apply list_elem_of_singleton in He' as ->.
  - intros renames name.
    destruct (renameAll_events renames (Partner.create idDraw d name)) as (Hid & Hevs).
    rewrite Hid. intros He. split; [|done].
    destruct (Hevs e He) as [Hin|(r & _ & ->)]; [|done].
    by apply list_elem_of_singleton in Hin as ->.
Qed.

Lemma X24_witness :
  aggregateIdOf (OrderPaid 12%N 2000 "1" PAID) = UUID_toString 1%N /\
  Order.id (invokeAll [CallPay draw2] (Order.create 1%N draw1 "customer" "spot" tenReais))
    = UUID_toString 1%N.
Proof.
  apply (proj1 (X24_events_carry_the_aggregate_id 1%N draw1 (OrderPaid 12%N 2000 "1" PAID))
           [CallPay draw2] "customer" "spot" tenReais).
  vm_compute. right. left.
Defined.

(** * Further properties of the Spring pipeline *)

Lemma clear_clear (e : Entity) :
  withAggregateRoot AggregateRoot.clearEvents (withAggregateRoot AggregateRoot.clearEvents e)
    = withAggregateRoot AggregateRoot.clearEvents e.
Proof. by destruct e. Qed.

Lemma clear_empty (e : Entity) :
  AggregateRoot.getDomainEvents (asAggregateRoot e) = [] ->
  withAggregateRoot AggregateRoot.clearEvents e = e.
Proof.
  destruct e as [[[evs] i n]|[[evs] i c s a st]]; simpl; intros Hnil;
    unfold AggregateRoot.getDomainEvents in Hnil; simpl in Hnil; by subst evs.
Qed.

Lemma clearEventsOf_empty (r : Ref) (w : World) :
  pendingEvents (heap w) r = [] -> clearEventsOf r w = w.
Proof.
  intros Hnil. unfold clearEventsOf. destruct w as [h a ss l]. unfold setHeap. simpl in *.
  f_equal. apply map_eq. intros r'. rewrite lookup_alter. case_decide; subst; [|done].
  unfold pendingEvents in Hnil. destruct (h !! r') as [e|]; simpl; [|done].
  by rewrite clear_empty.
Qed.

(** X9. Nothing is published twice: once [publishEvents] has returned
  normally, calling it again on the same aggregate returns normally and
  changes nothing, the log included. *)
Theorem X9_publishEvents_once :
  forall (listeners : list ApplicationListener) (r : Ref) (w : World),
    fst (publishEvents listeners r w) = Normal () ->
    publishEvents listeners r (snd (publishEvents listeners r w))
      = (Normal (), snd (publishEvents listeners r w)).
Proof.
  intros listeners r w. unfold publishEvents at 1 3 4.
  destruct (heap w !! r) as [e|] eqn:Hr; simpl; [|done].
  destruct (publishLoop_emits listeners
              (AggregateRoot.getDomainEvents (asAggregateRoot e)) w) as (ds & Hw & _).
  destruct (publishLoop listeners _ w) as [[[]|ex] w']; simpl in Hw; subst w'; simpl;
    [|done].
  intros _. unfold publishEvents.
  assert (pendingEvents (heap (clearEventsOf r (emit ds w))) r = []) as Hnil
    by apply pendingEvents_clear_eq.
  unfold pendingEvents in Hnil.
  destruct (heap (clearEventsOf r (emit ds w)) !! r) as [e'|] eqn:Hr'.
  - rewrite Hnil. simpl. f_equal. apply clearEventsOf_empty.
    unfold pendingEvents. by rewrite Hr'.
  - unfold clearEventsOf in Hr'. simpl in Hr'. rewrite lookup_alter_eq, Hr in Hr'. done.
Qed.

Lemma X9_witness :
  publishEvents [recordingListener] 0%nat
      (snd (publishEvents [recordingListener] 0%nat worldWithAcme))
    = (Normal (), snd (publishEvents [recordingListener] 0%nat worldWithAcme)).
Proof. apply X9_publishEvents_once. reflexivity. Defined.

Lemma fromDispatch_mono (ls : list ApplicationListener) (evs evs' : list DomainEvent)
    (o : Obs) :
  (forall ev, ev ∈ evs -> ev ∈ evs') -> fromDispatch ls evs o -> fromDispatch ls evs' o.
Proof.
  intros Hsub. destruct o as [ev|i ev| |]; simpl; [apply Hsub| |done|done].
  intros [Hev Hl]. split; [by apply Hsub|done].
Qed.

Lemma multicastEvent_fromDispatch (listeners ls : list ApplicationListener)
    (ev : DomainEvent) (w : World) :
  (forall l, l ∈ ls -> l ∈ listeners) ->
  exists ds, snd (multicastEvent ls ev w) = emit ds w /\
    Forall (fromDispatch listeners [ev]) ds.
Proof.
  revert w. induction ls as [|l ls IH]; intros w Hsub; simpl.
  - exists []. by rewrite emit_nil.
  - assert (forall l', l' ∈ ls -> l' ∈ listeners) as Hsub'
      by (intros l' Hl'; apply Hsub; by right).
    destruct (supportsEvent l ev) eqn:Hs; [|by apply IH].
    assert (fromDispatch listeners [ev] (Delivered (listenerId l) ev)) as Hd.
    { simpl. split; [by left|]. exists l. split; [apply Hsub; by left|done]. }
    destruct (onApplicationEvent l ev) as [ex|]; simpl.
    + exists [Delivered (listenerId l) ev]. split; [done|]. constructor; [done|constructor].
    + destruct (IH (emit [Delivered (listenerId l) ev] w) Hsub') as (ds & -> & Hds).
      exists (Delivered (listenerId l) ev :: ds). rewrite emit_emit. split; [done|].
      by constructor.
Qed.

Lemma publishLoop_fromDispatch (listeners : list ApplicationListener)
    (evs : list DomainEvent) (w : World) :
  exists ds, snd (publishLoop listeners evs w) = emit ds w /\
    Forall (fromDispatch listeners evs) ds.
Proof.
  revert w. induction evs as [|ev evs IH]; intros w; simpl.
  - exists []. by rewrite emit_nil.
  - unfold publishEvent.
    destruct (multicastEvent_fromDispatch listeners listeners ev (emit [Published ev] w))
      as (ds & Hw & Hds); [done|].
    assert (Forall (fromDispatch listeners (ev :: evs)) (Published ev :: ds)) as Hhead.
    { constructor; [by left|]. eapply Forall_impl; [exact Hds|].
      intros o. apply fromDispatch_mono. intros ev' Hev'.
      apply list_elem_of_singleton in Hev' as ->. by left. }
    destruct (multicastEvent listeners ev _) as [[[]|ex] w']; simpl in Hw; subst w'.
    + destruct (IH (emit ds (emit [Published ev] w))) as (ds' & -> & Hds').
      exists ((Published ev :: ds) ++ ds'). rewrite !emit_emit. split; [done|].
      apply Forall_app. split; [done|]. eapply Forall_impl; [exact Hds'|].
      intros o. apply fromDispatch_mono. intros ev' Hev'. by right.
    + exists (Published ev :: ds). rewrite emit_emit. by split.
Qed.

(** X10. What [publishEvents] writes is made of the pending events only:
  every publication is of an event that was in the buffer, every delivery
  is of such an event to a registered listener that supports it, and no
  commit or rollback mark is written.  A listener is never called for an
  event it does not support. *)
Theorem X10_only_pending_events_to_supporting_listeners :
  forall (listeners : list ApplicationListener) (r : Ref) (w : World) (added : list Obs),
    log (snd (publishEvents listeners r w)) = log w ++ added ->
    Forall (fromDispatch listeners (pendingEvents (heap w) r)) added.
Proof.
  intros listeners r w added. unfold publishEvents, pendingEvents.
  destruct (heap w !! r) as [e|]; simpl.
  - destruct (publishLoop_fromDispatch listeners
                (AggregateRoot.getDomainEvents (asAggregateRoot e)) w) as (ds & Hw & Hds).
    destruct (publishLoop listeners _ w) as [[[]|ex] w']; simpl in Hw; subst w'; simpl;
      intros Heq; apply app_inv_head in Heq; by subst added.
  - intros Heq. rewrite <- (app_nil_r (log w)) in Heq at 1.
    apply app_inv_head in Heq. by subst added.
Qed.

Lemma X10_witness :
  Forall (fromDispatch [failingListener; recordingListener]
            (pendingEvents (heap worldWithAcme) 0%nat))
    [Published (PartnerCreated 11%N 1000 "2" "Acme");
     Delivered 1 (PartnerCreated 11%N 1000 "2" "Acme")].
Proof.
  apply (X10_only_pending_events_to_supporting_listeners
           [failingListener; recordingListener] 0%nat worldWithAcme).
  reflexivity.
Defined.

Lemma publishEvents_empty (listeners : list ApplicationListener) (r : Ref) (w : World) :
  is_Some (heap w !! r) -> pendingEvents (heap w) r = [] ->
  publishEvents listeners r w = (Normal (), w).
Proof.
  intros [e He] Hnil. unfold publishEvents. rewrite He.
  unfold pendingEvents in Hnil. rewrite He in Hnil. rewrite Hnil. simpl.
  f_equal. apply clearEventsOf_empty. unfold pendingEvents. by rewrite He.
Qed.

Lemma fmap_clear_clear (x : option Entity) :
  withAggregateRoot AggregateRoot.clearEvents
    <$> (withAggregateRoot AggregateRoot.clearEvents <$> x)
  = withAggregateRoot AggregateRoot.clearEvents <$> x.
Proof. destruct x as [e|]; simpl; [|done]. by rewrite clear_clear. Qed.

(** How [publishEvents] ends: normally with the buffer cleared, or with an
  exception and the heap as it was. *)
Lemma publishEvents_heap (listeners : list ApplicationListener) (r : Ref) (w : World) :
  (fst (publishEvents listeners r w) = Normal () /\
   heap (snd (publishEvents listeners r w))
     = alter (withAggregateRoot AggregateRoot.clearEvents) r (heap w)) \/
  ((exists ex, fst (publishEvents listeners r w) = Thrown ex) /\
   heap (snd (publishEvents listeners r w)) = heap w).
Proof.
  unfold publishEvents. destruct (heap w !! r) as [e|]; simpl; [|right; eauto].
  destruct (publishLoop_emits listeners
              (AggregateRoot.getDomainEvents (asAggregateRoot e)) w) as (ds & Hw & _).
  destruct (publishLoop listeners _ w) as [[[]|ex] w']; simpl in Hw; subst w'; simpl.
  - by left.
  - right. eauto.
Qed.

(** Through all the [afterCommit] callbacks an aggregate is either
  untouched or, if it is tracked, has lost its buffer and nothing else. *)
Lemma triggerAfterCommit_heap (listeners : list ApplicationListener)
    (ss : list TransactionSynchronization) (w : World) (r : Ref) :
  heap (snd (triggerAfterCommit listeners ss w)) !! r = heap w !! r \/
  (r ∈ map capturedAggregate ss /\
   heap (snd (triggerAfterCommit listeners ss w)) !! r
     = withAggregateRoot AggregateRoot.clearEvents <$> heap w !! r).
Proof.
  revert w. induction ss as [|s ss IH]; intros w; simpl; [by left|].
  unfold afterCommit.
  destruct (publishEvents_heap listeners (capturedAggregate s) w)
    as [[Hfst Hheap]|[[ex Hfst] Hheap]];
    destruct (publishEvents listeners (capturedAggregate s) w) as [c w1];
    simpl in Hfst, Hheap; subst c; simpl; [|left; by rewrite Hheap].
  destruct (IH w1) as [Hsame|[Hin Hclear]].
  - rewrite Hsame, Hheap, lookup_alter. case_decide as Heq; [|by left].
    subst r. right. split; [by left|done].
  - right. split; [by right|]. rewrite Hclear, Hheap, lookup_alter.
    case_decide; [|done]. subst r. apply fmap_clear_clear.
Qed.

Lemma processCommit_heap (listeners : list ApplicationListener) (w : World) :
  heap (snd (processCommit listeners w))
    = heap (snd (triggerAfterCommit listeners (synchronizations w) (emit [Committed] w))).
Proof.
  unfold processCommit. destruct (triggerAfterCommit listeners _ _) as [c w2]. simpl.
  by rewrite triggerAfterCompletion_committed.
Qed.

Lemma triggerAfterCompletion_heap (ss : list TransactionSynchronization) (w : World)
    (r : Ref) :
  heap (triggerAfterCompletion ss STATUS_ROLLED_BACK w) !! r
    = if bool_decide (r ∈ map capturedAggregate ss)
      then withAggregateRoot AggregateRoot.clearEvents <$> heap w !! r
      else heap w !! r.
Proof.
  revert w. induction ss as [|s ss IH]; intros w; cbn [triggerAfterCompletion map].
  - rewrite bool_decide_false; [done|]. by intros Hin%elem_of_nil.
  - rewrite IH. unfold afterCompletion.
    rewrite (bool_decide_true (STATUS_ROLLED_BACK = STATUS_ROLLED_BACK)) by done.
    unfold clearEventsOf. cbn [heap setHeap]. rewrite lookup_alter.
    destruct (decide (capturedAggregate s = r)) as [->|Hne].
    + rewrite (bool_decide_true (_ ∈ _ :: _)) by (by left).
      case_bool_decide; [apply fmap_clear_clear|done].
    + case_bool_decide as Hin.
      * rewrite bool_decide_true by (by right). done.
      * rewrite bool_decide_false; [done|].
        intros [->|Hin']%elem_of_cons; done.
Qed.

(** X12. A rollback gives back nothing but empty buffers: after it a
  tracked aggregate has the fields it had at that moment, changes made in
  the transaction included, with its buffer cleared, and every other
  aggregate is exactly as it was. *)
Theorem X12_rollback_frame :
  forall (w : World) (r : Ref),
    heap (processRollback w) !! r
      = if bool_decide (r ∈ trackedAggregates w)
        then withAggregateRoot AggregateRoot.clearEvents <$> heap w !! r
        else heap w !! r.
Proof.
  intros w r. unfold processRollback. simpl.
  by rewrite triggerAfterCompletion_heap.
Qed.

Lemma pendingEvents_fmap_clear (h h' : gmap Ref Entity) (r : Ref) :
  h' !! r = withAggregateRoot AggregateRoot.clearEvents <$> h !! r ->
  pendingEvents h' r = [].
Proof.
  intros Hr. unfold pendingEvents. rewrite Hr.
  destruct (h !! r) as [e|]; simpl; [|done]. by rewrite asAggregateRoot_with.
Qed.

Lemma triggerAfterCommit_keeps_nil (listeners : list ApplicationListener)
    (ss : list TransactionSynchronization) (w : World) (r : Ref) :
  pendingEvents (heap w) r = [] ->
  pendingEvents (heap (snd (triggerAfterCommit listeners ss w))) r = [].
Proof.
  intros Hnil. destruct (triggerAfterCommit_heap listeners ss w r) as [Hsame|[_ Hclear]].
  - unfold pendingEvents in *. by rewrite Hsame.
  - by apply (pendingEvents_fmap_clear (heap w)).
Qed.

Lemma triggerAfterCommit_is_Some (listeners : list ApplicationListener)
    (ss : list TransactionSynchronization) (w : World) (r : Ref) :
  is_Some (heap w !! r) -> is_Some (heap (snd (triggerAfterCommit listeners ss w)) !! r).
Proof.
  intros [e He]. destruct (triggerAfterCommit_heap listeners ss w r) as [->|[_ ->]];
    rewrite He; simpl; eauto.
Qed.

(** With listeners that never throw and every tracked reference alive, all
  the [afterCommit] callbacks return and leave every tracked buffer empty;
  the same aggregate may be tracked more than once. *)
Lemma triggerAfterCommit_clears (listeners : list ApplicationListener)
    (ss : list TransactionSynchronization) (w : World) :
  (forall ev, quietOn listeners ev) ->
  (forall r, r ∈ map capturedAggregate ss -> is_Some (heap w !! r)) ->
  fst (triggerAfterCommit listeners ss w) = Normal () /\
  (forall r, r ∈ map capturedAggregate ss ->
     pendingEvents (heap (snd (triggerAfterCommit listeners ss w))) r = []).
Proof.
  intros Hq. revert w. induction ss as [|s ss IH]; intros w Hin; simpl.
  - split; [done|]. by intros r Hr%elem_of_nil.
  - destruct (Hin (capturedAggregate s)) as [e He]; [by left|].
    unfold afterCommit. rewrite (publishEvents_quiet listeners _ e) by done.
    set (w1 := clearEventsOf _ _).
    destruct (IH w1) as [Hfst Hclear].
    { intros r Hr. apply lookup_clear_is_Some. simpl. apply Hin. by right. }
    split; [done|]. intros r [->|Hr]%elem_of_cons; [|by apply Hclear].
    apply triggerAfterCommit_keeps_nil. apply pendingEvents_clear_eq.
Qed.

(** X13. A commit whose listeners never throw returns normally, empties the
  buffer of every aggregate handed to [publishAfterCommit], also of one
  handed over several times, and ends the synchronization. *)
Theorem X13_commit_drains_tracked_buffers :
  forall (listeners : list ApplicationListener) (w : World),
    (forall ev, quietOn listeners ev) ->
    (forall r, r ∈ trackedAggregates w -> is_Some (heap w !! r)) ->
    fst (processCommit listeners w) = Normal () /\
    (forall r, r ∈ trackedAggregates w ->
       pendingEvents (heap (snd (processCommit listeners w))) r = []) /\
    synchronizationActive (snd (processCommit listeners w)) = false /\
    synchronizations (snd (processCommit listeners w)) = [].
Proof.
  intros listeners w Hq Hin.
  destruct (triggerAfterCommit_clears listeners (synchronizations w) (emit [Committed] w)
              Hq Hin) as [Hfst Hclear].
  rewrite processCommit_heap. unfold processCommit.
  destruct (triggerAfterCommit listeners _ _) as [c w2]. simpl in *. by repeat split.
Qed.

Lemma X13_witness :
  fst (processCommit [recordingListener] worldWithTwo) = Normal () /\
  pendingEvents (heap (snd (processCommit [recordingListener] worldWithTwo))) 1%nat = [].
Proof.
  destruct (X13_commit_drains_tracked_buffers [recordingListener] worldWithTwo)
    as (Hfst & Hclear & _).
  - intros ev l Hl _. apply list_elem_of_singleton in Hl. by subst l.
  - intros r Hr. vm_compute in Hr.
    apply elem_of_cons in Hr as [->|Hr]; [vm_compute; eauto|].
    apply list_elem_of_singleton in Hr as ->. vm_compute. eauto.
  - split; [exact Hfst|]. apply Hclear. vm_compute. right. left.
Defined.

(** *** The synchronizations are carried along untouched *)

Lemma multicastEvent_setSynchronizations (ls : list ApplicationListener) (ev : DomainEvent)
    (x : list TransactionSynchronization) (w : World) :
  multicastEvent ls ev (setSynchronizations x w)
    = (fst (multicastEvent ls ev w), setSynchronizations x (snd (multicastEvent ls ev w))).
Proof.
  revert w. induction ls as [|l ls IH]; intros w; simpl; [done|].
  destruct (supportsEvent l ev); [|apply IH].
  destruct (onApplicationEvent l ev) as [ex|]; [done|].
  apply (IH (emit [Delivered (listenerId l) ev] w)).
Qed.

Lemma publishLoop_setSynchronizations (listeners : list ApplicationListener)
    (evs : list DomainEvent) (x : list TransactionSynchronization) (w : World) :
  publishLoop listeners evs (setSynchronizations x w)
    = (fst (publishLoop listeners evs w),
       setSynchronizations x (snd (publishLoop listeners evs w))).
Proof.
  revert w. induction evs as [|ev evs IH]; intros w; simpl; [done|].
  unfold publishEvent.
  change (emit [Published ev] (setSynchronizations x w))
    with (setSynchronizations x (emit [Published ev] w)).
  rewrite multicastEvent_setSynchronizations.
  destruct (multicastEvent listeners ev (emit [Published ev] w)) as [[[]|ex] w']; simpl;
    [apply IH|done].
Qed.

Lemma publishEvents_setSynchronizations (listeners : list ApplicationListener) (r : Ref)
    (x : list TransactionSynchronization) (w : World) :
  publishEvents listeners r (setSynchronizations x w)
    = (fst (publishEvents listeners r w),
       setSynchronizations x (snd (publishEvents listeners r w))).
Proof.
  unfold publishEvents. simpl. destruct (heap w !! r) as [e|]; [|done].
  rewrite publishLoop_setSynchronizations.
  by destruct (publishLoop listeners _ w) as [[[]|ex] w'].
Qed.

Lemma triggerAfterCommit_setSynchronizations (listeners : list ApplicationListener)
    (ss x : list TransactionSynchronization) (w : World) :
  triggerAfterCommit listeners ss (setSynchronizations x w)
    = (fst (triggerAfterCommit listeners ss w),
       setSynchronizations x (snd (triggerAfterCommit listeners ss w))).
Proof.
  revert w. induction ss as [|s ss IH]; intros w; simpl; [done|].
  unfold afterCommit. rewrite publishEvents_setSynchronizations.
  destruct (publishEvents listeners (capturedAggregate s) w) as [[[]|ex] w']; simpl;
    [apply IH|done].
Qed.

Lemma triggerAfterCommit_app (listeners : list ApplicationListener)
    (a b : list TransactionSynchronization) (w : World) :
  triggerAfterCommit listeners (a ++ b) w
    = match triggerAfterCommit listeners a w with
      | (Normal _, w') => triggerAfterCommit listeners b w'
      | (Thrown ex, w') => (Thrown ex, w')
      end.
Proof.
  revert w. induction a as [|s a IH]; intros w; simpl.
  - by destruct (triggerAfterCommit listeners b w) as [[[]|ex] w'].
  - destruct (afterCommit listeners s w) as [[[]|ex] w']; [apply IH|done].
Qed.

(** X14. Handing the same aggregate to [publishAfterCommit] once more
  changes nothing in the commit: with listeners that never throw, the
  result, the log and the heap are those of the commit without the
  repeated registration.  An event is not published twice. *)
Theorem X14_repeated_registration_is_harmless :
  forall (listeners : list ApplicationListener) (r : Ref) (w : World),
    r ∈ trackedAggregates w ->
    (forall ev, quietOn listeners ev) ->
    (forall r', r' ∈ trackedAggregates w -> is_Some (heap w !! r')) ->
    processCommit listeners (registerSynchronization (PublishSynchronization r) w)
      = processCommit listeners w.
Proof.
  intros listeners r w Hr Hq Hin. unfold processCommit.
  change (synchronizations (registerSynchronization (PublishSynchronization r) w))
    with (synchronizations w ++ [PublishSynchronization r]).
  change (emit [Committed] (registerSynchronization (PublishSynchronization r) w))
    with (setSynchronizations (synchronizations w ++ [PublishSynchronization r])
            (emit [Committed] w)).
  rewrite triggerAfterCommit_app, triggerAfterCommit_setSynchronizations.
  destruct (triggerAfterCommit_clears listeners (synchronizations w) (emit [Committed] w)
              Hq Hin) as [Hfst Hclear].
  pose proof (triggerAfterCommit_is_Some listeners (synchronizations w)
                (emit [Committed] w) r (Hin r Hr)) as Hsome.
  specialize (Hclear r Hr).
  destruct (triggerAfterCommit listeners (synchronizations w) (emit [Committed] w))
    as [c w2]. simpl in *. subst c. simpl. unfold afterCommit. simpl.
  rewrite publishEvents_setSynchronizations.
  rewrite (publishEvents_empty listeners r w2) by done. simpl.
  by rewrite !triggerAfterCompletion_committed.
Qed.

Lemma X14_witness :
  processCommit [recordingListener]
      (registerSynchronization (PublishSynchronization 0%nat) worldWithTwo)
    = processCommit [recordingListener] worldWithTwo.
Proof.
  apply X14_repeated_registration_is_harmless.
  - vm_compute. left.
  - intros ev l Hl _. apply list_elem_of_singleton in Hl. by subst l.
  - intros r Hr. vm_compute in Hr.
    apply elem_of_cons in Hr as [->|Hr]; [vm_compute; eauto|].
    apply list_elem_of_singleton in Hr as ->. vm_compute. eauto.
Defined.

(** X15. The publisher keeps the reference, not a copy: a name change made
  after [publishAfterCommit] and before the commit is published with the
  events that were pending when the aggregate was handed over. *)
Theorem X15_events_recorded_after_registration_are_published :
  forall (listeners : list ApplicationListener) (r : Ref) (p : Partner.t) (d : Draw)
         (newName : string) (w : World),
    synchronizationActive w = true ->
    synchronizations w = [] ->
    heap w !! r = Some (EPartner p) ->
    (forall ev, quietOn listeners ev) ->
    publishedEvents
      (log (snd (processCommit listeners
                   (snd (exec listeners (PartnerChangeName r d newName)
                           (snd (publishAfterCommit listeners r w)))))))
      = publishedEvents (log w)
          ++ Partner.getDomainEvents p
          ++ [PartnerNameChanged (randomUUID d) (now d) (Partner.id p) newName].
Proof.
  intros listeners r p d newName w Hact Hss Hr Hq.
  unfold publishAfterCommit. rewrite Hact. simpl.
  unfold onPartner. simpl. rewrite Hr. simpl.
  unfold processCommit. simpl. rewrite Hss. simpl. unfold afterCommit. simpl.
  match goal with
  | |- context [publishEvents listeners r ?w'] =>
      rewrite (publishEvents_quiet listeners r
                 (EPartner (snd (Partner.changeName d newName p))) w')
  end; [|simpl; by rewrite lookup_insert_eq|done].
  simpl. rewrite !publishedEvents_app, publishedEvents_dispatch. simpl.
  by rewrite app_nil_r.
Qed.

Lemma X15_witness :
  publishedEvents
    (log (snd (processCommit [recordingListener]
                 (snd (exec [recordingListener] (PartnerChangeName 0%nat draw3 "Gamma")
                         (snd (publishAfterCommit [recordingListener] 0%nat
                                 (beginTransaction worldWithAcme))))))))
    = publishedEvents (log (beginTransaction worldWithAcme))
        ++ Partner.getDomainEvents renamedAcme
        ++ [PartnerNameChanged (randomUUID draw3) (now draw3) (Partner.id renamedAcme)
              "Gamma"].
Proof.
  apply X15_events_recorded_after_registration_are_published.
  - reflexivity.
  - reflexivity.
  - reflexivity.
  - intros ev l Hl _. apply list_elem_of_singleton in Hl. by subst l.
Defined.

(** * Further properties of the NestJS pipeline *)

Section NestMore.

Import Nest NestLog.

Lemma all_Resolved (rs : list Settled) :
  all rs = Resolved <-> forall r, r ∈ rs -> r = Resolved.
Proof.
  induction rs as [|[|reason] rs IH]; simpl.
  - split; [intros _ r Hr; by apply elem_of_nil in Hr|done].
  - rewrite IH. split.
    + intros H' r [->|Hr]%elem_of_cons; [done|by apply H'].
    + intros H' r Hr. apply H'. by right.
  - split; [done|]. intros H'. by apply (H' (Rejected reason)); left.
Qed.

Lemma emitAsync_Resolved (p : Phase) (emitter : EventEmitter2) (ev : DomainEvent)
    (l : list Nest.Obs) :
  fst (emitAsync p emitter (getEventName ev) ev l) = Resolved <-> resolvesOn emitter ev.
Proof.
  unfold emitAsync, resolvesOn. simpl. rewrite all_Resolved. split.
  - intros H' h Hh. apply H'. apply list_elem_of_fmap. by exists h.
  - intros H' r Hr. apply list_elem_of_fmap in Hr as (h & -> & Hh). by apply H'.
Qed.

Lemma emitAsync_log (p : Phase) (emitter : EventEmitter2) (ev : DomainEvent)
    (l : list Nest.Obs) :
  snd (emitAsync p emitter (getEventName ev) ev l) = l ++ emissionOf p emitter ev.
Proof. done. Qed.

(** The loop of [publish] when every handler resolves, and when the
  handlers of one event do not. *)
Lemma emitEach_resolves (p : Phase) (emitter : EventEmitter2) (evs : list DomainEvent)
    (l : list Nest.Obs) :
  (forall ev, ev ∈ evs -> resolvesOn emitter ev) ->
  emitEach p emitter evs l = (Resolved, l ++ flat_map (emissionOf p emitter) evs).
Proof.
  revert l. induction evs as [|ev evs IH]; intros l Hres; cbn [emitEach flat_map].
  - by rewrite app_nil_r.
  - pose proof (proj2 (emitAsync_Resolved p emitter ev l) (Hres ev ltac:(by left))) as Hfst.
    pose proof (emitAsync_log p emitter ev l) as Hlog.
    destruct (emitAsync p emitter (getEventName ev) ev l) as [s l1]. simpl in *.
    subst s l1. rewrite IH by (intros ev' Hev'; apply Hres; by right).
    by rewrite <- app_assoc.
Qed.

Lemma emitEach_rejects (p : Phase) (emitter : EventEmitter2)
    (pre : list DomainEvent) (ev : DomainEvent) (post : list DomainEvent)
    (l : list Nest.Obs) :
  (forall ev', ev' ∈ pre -> resolvesOn emitter ev') ->
  ~ resolvesOn emitter ev ->
  exists reason,
    emitEach p emitter (pre ++ ev :: post) l
      = (Rejected reason,
         l ++ flat_map (emissionOf p emitter) pre ++ emissionOf p emitter ev).
Proof.
  revert l. induction pre as [|ev' pre IH]; intros l Hres Hrej; cbn [emitEach flat_map app].
  - pose proof (emitAsync_Resolved p emitter ev l) as Hiff.
    pose proof (emitAsync_log p emitter ev l) as Hlog.
    destruct (emitAsync p emitter (getEventName ev) ev l) as [[|reason] l1]; simpl in *.
    + by destruct Hrej; apply Hiff.
    + subst l1. by exists reason.
  - pose proof (proj2 (emitAsync_Resolved p emitter ev' l) (Hres ev' ltac:(by left)))
      as Hfst.
    pose proof (emitAsync_log p emitter ev' l) as Hlog.
    destruct (emitAsync p emitter (getEventName ev') ev' l) as [s l1]. simpl in *.
    subst s l1.
    destruct (IH (l ++ emissionOf p emitter ev')) as [reason ->]; [|done|].
    { intros ev'' Hev''. apply Hres. by right. }
    exists reason. by rewrite <- !app_assoc.
Qed.

Lemma emitEach_Resolved_inv (p : Phase) (emitter : EventEmitter2) (evs : list DomainEvent)
    (l : list Nest.Obs) :
  fst (emitEach p emitter evs l) = Resolved -> forall ev, ev ∈ evs -> resolvesOn emitter ev.
Proof.
  revert l. induction evs as [|ev evs IH]; intros l Hfst ev' Hev'; cbn [emitEach] in Hfst.
  - by apply elem_of_nil in Hev'.
  - pose proof (emitAsync_Resolved p emitter ev l) as Hiff.
    destruct (emitAsync p emitter (getEventName ev) ev l) as [[|reason] l1]; simpl in *;
      [|done].
    apply elem_of_cons in Hev' as [->|Hev']; [by apply Hiff|by apply (IH l1)].
Qed.

Lemma forEachRoot_Resolved_inv
    (f : AggregateRoot -> list Nest.Obs -> Settled * list Nest.Obs)
    (roots : list AggregateRoot) (l : list Nest.Obs) :
  fst (forEachRoot f roots l) = Resolved ->
  forall a, a ∈ roots -> exists l', fst (f a l') = Resolved.
Proof.
  revert l. induction roots as [|a roots IH]; intros l Hfst a' Ha'; simpl in Hfst.
  - by apply elem_of_nil in Ha'.
  - destruct (f a l) as [[|reason] l1] eqn:Hf; simpl in *; [|done].
    apply elem_of_cons in Ha' as [->|Ha'].
    + exists l. by rewrite Hf.
    + by apply (IH l1).
Qed.

Lemma forEachRoot_resolves
    (f : AggregateRoot -> list Nest.Obs -> Settled * list Nest.Obs)
    (g : AggregateRoot -> list Nest.Obs)
    (roots : list AggregateRoot) (l : list Nest.Obs) :
  (forall a l', a ∈ roots -> f a l' = (Resolved, l' ++ g a)) ->
  forEachRoot f roots l = (Resolved, l ++ flat_map g roots).
Proof.
  revert l. induction roots as [|a roots IH]; intros l Hf; simpl.
  - by rewrite app_nil_r.
  - rewrite Hf by (by left). rewrite IH by (intros a' l' Ha'; apply Hf; by right).
    by rewrite <- app_assoc.
Qed.

Lemma matchingListeners_registered (name : string) (emitter : EventEmitter2) (h : Handler) :
  h ∈ matchingListeners name emitter -> h ∈ map snd emitter.
Proof.
  unfold matchingListeners, listenersOf.
  intros [Hin|[Hin|Hin]%elem_of_app]%elem_of_app;
    apply list_elem_of_fmap in Hin as (kh & -> & Hkh);
    apply list_elem_of_filter in Hkh as [_ Hkh]; by apply list_elem_of_fmap_2.
Qed.

(** X17. A domain handler that rejects keeps the commit from being
  attempted: when a handler called for an event of a tracked aggregate
  rejects, [finish] rejects and its log holds domain-phase entries only: no
  flush, no integration hand-off. *)
Theorem X17_rejecting_domain_handler_prevents_flush :
  forall (m : DomainEventManager) (w : Nest.World) (a : AggregateRoot) (ev : DomainEvent),
    a ∈ getAggregateRoots w ->
    ev ∈ events a ->
    ~ resolvesOn (domainEventsSubscriber m) ev ->
    (exists reason, fst (finish m w) = Rejected reason) /\
    exists dom, Nest.log (snd (finish m w)) = Nest.log w ++ dom /\
                Forall (inPhase DomainPhase) dom.
Proof.
  intros m w a ev Ha Hev Hrej. unfold finish.
  destruct (forEachRoot_spec DomainPhase (publish m) (getAggregateRoots w) (Nest.log w))
    as (dom & Hl1 & Hp1 & _).
  { intros a' l'. apply emitEach_spec. }
  pose proof (forEachRoot_Resolved_inv (publish m) (getAggregateRoots w) (Nest.log w))
    as Hinv.
  destruct (forEachRoot (publish m) _ _) as [[|reason] l1]; simpl in *.
  - destruct (Hinv eq_refl a Ha) as [l' Hl']. destruct Hrej.
    by apply (emitEach_Resolved_inv DomainPhase _ (events a) l').
  - subst l1. split; [eauto|]. by exists dom.
Qed.

Lemma X17_witness :
  (exists reason,
     fst (finish NestSample.managerWithFailure NestSample.worldUp) = Rejected reason) /\
  exists dom,
    Nest.log (snd (finish NestSample.managerWithFailure NestSample.worldUp))
      = Nest.log NestSample.worldUp ++ dom /\
    Forall (inPhase DomainPhase) dom.
Proof.
  apply (X17_rejecting_domain_handler_prevents_flush NestSample.managerWithFailure
           NestSample.worldUp {| events := [NestSample.partnerCreated] |}
           NestSample.partnerCreated).
  - vm_compute. left.
  - vm_compute. left.
  - intros Hres. specialize (Hres NestSample.failingHandler).
    assert (handle NestSample.failingHandler NestSample.partnerCreated = Resolved) as Habs.
    { apply Hres. vm_compute. left. }
    discriminate Habs.
Defined.



(** X19. [publish] stops at the first event one of whose handlers rejects:
  the events before it went to all their handlers, every handler of the
  failing event was still called, and the events after it are not
  emitted. *)
Theorem X19_publish_stops_at_rejected_event :
  forall (m : DomainEventManager) (a : AggregateRoot)
         (pre : list DomainEvent) (ev : DomainEvent) (post : list DomainEvent)
         (l : list Nest.Obs),
    events a = pre ++ ev :: post ->
    (forall ev', ev' ∈ pre -> resolvesOn (domainEventsSubscriber m) ev') ->
    ~ resolvesOn (domainEventsSubscriber m) ev ->
    exists reason,
      publish m a l
        = (Rejected reason,
           l ++ flat_map (emissionOf DomainPhase (domainEventsSubscriber m)) pre
             ++ emissionOf DomainPhase (domainEventsSubscriber m) ev).
Proof.
  intros m a pre ev post l Hevs Hres Hrej. unfold publish. rewrite Hevs.
  by apply emitEach_rejects.
Qed.

Lemma X19_witness :
  exists reason,
    publish NestSample.managerWithFailure
      {| events := [NestSample.partnerCreated; NestSample.secondPartnerCreated] |} []
    = (Rejected reason,
       [] ++ flat_map (emissionOf DomainPhase
                         (domainEventsSubscriber NestSample.managerWithFailure)) []
          ++ emissionOf DomainPhase (domainEventsSubscriber NestSample.managerWithFailure)
               NestSample.partnerCreated).
Proof.
  apply (X19_publish_stops_at_rejected_event NestSample.managerWithFailure
           {| events := [NestSample.partnerCreated; NestSample.secondPartnerCreated] |}
           [] NestSample.partnerCreated [NestSample.secondPartnerCreated] []).
  - reflexivity.
  - intros ev' Hev'. by apply elem_of_nil in Hev'.
  - intros Hres. specialize (Hres NestSample.failingHandler).
    assert (handle NestSample.failingHandler NestSample.partnerCreated = Resolved) as Habs.
    { apply Hres. vm_compute. left. }
    discriminate Habs.
Defined.

(** X20. When every domain handler resolves and the database is up, the
  log of [finish] starts with exactly this: for each tracked aggregate in
  order and each of its events in order, the emission of the event and the
  call of each of its handlers; then the flush.  Whatever follows belongs to
  the integration phase. *)
Theorem X20_finish_log_up_to_the_flush :
  forall (m : DomainEventManager) (w : Nest.World),
    databaseUp (em w) = true ->
    (forall a ev, a ∈ getAggregateRoots w -> ev ∈ events a ->
       resolvesOn (domainEventsSubscriber m) ev) ->
    exists integ,
      Forall (inPhase IntegrationPhase) integ /\
      Nest.log (snd (finish m w))
        = Nest.log w
            ++ flat_map (fun a => flat_map (emissionOf DomainPhase (domainEventsSubscriber m))
                                    (events a)) (getAggregateRoots w)
            ++ Flushed :: integ.
Proof.
  intros m w Hup Hres. unfold finish.
  rewrite (forEachRoot_resolves (publish m)
             (fun a => flat_map (emissionOf DomainPhase (domainEventsSubscriber m))
                         (events a))).
  2:{ intros a l' Ha. unfold publish. apply emitEach_resolves.
      intros ev Hev. by apply (Hres a ev). }
  unfold commit, flush. simpl. rewrite Hup. simpl.
  match goal with
  | |- context [forEachRoot (publishForIntegrationEvent m) ?roots ?l] =>
      destruct (forEachRoot_spec IntegrationPhase (publishForIntegrationEvent m) roots l)
        as (integ & Hl & Hp & _);
      [intros a l'; apply publishForIntegrationEvent_spec|];
      destruct (forEachRoot (publishForIntegrationEvent m) roots l) as [s l3]
  end.
  simpl in *. subst l3. exists integ. split; [done|]. by rewrite <- !app_assoc.
Qed.

Lemma X20_witness :
  exists integ,
    Forall (inPhase IntegrationPhase) integ /\
    Nest.log (snd (finish NestSample.manager NestSample.worldTwo))
      = Nest.log NestSample.worldTwo
          ++ flat_map (fun a => flat_map (emissionOf DomainPhase
                                            (domainEventsSubscriber NestSample.manager))
                                  (events a)) (getAggregateRoots NestSample.worldTwo)
          ++ Flushed :: integ.
Proof.
  apply (X20_finish_log_up_to_the_flush NestSample.manager NestSample.worldTwo).
  - reflexivity.
  - intros a ev _ _ h Hh. apply matchingListeners_registered in Hh.
    vm_compute in Hh. apply list_elem_of_singleton in Hh. by subst h.
Defined.

End NestMore.

(** * Value objects *)

Section ValueObjectFacts.

Import ValueObjects.

Context {V : Type} (eqV : V -> V -> bool).

Lemma isEqual_sym (a b : Js V) :
  (forall x y, eqV x y = eqV y x) -> isEqual eqV a b = isEqual eqV b a.
Proof. intros Hsym. destruct a, b; simpl; auto. Qed.

Lemma isEqual_trans (a b c : Js V) :
  (forall x y z, eqV x y = true -> eqV y z = true -> eqV x z = true) ->
  isEqual eqV a b = true -> isEqual eqV b c = true -> isEqual eqV a c = true.
Proof. intros Htrans. destruct a, b, c; simpl; try done. apply Htrans. Qed.

Lemma equals_true (a b : ValueObject V) :
  equals eqV a (Val b) = true <->
  value b <> Undefined /\ constructorName b = constructorName a /\
  isEqual eqV (value a) (value b) = true.
Proof.
  unfold equals. destruct (value b) eqn:Hb.
  - split; [done|]. by intros [? _].
  - case_bool_decide as Hn; simpl.
    + split; [done|]. intros (_ & Hname & _). done.
    + split; [by intros ->|by intros (_ & _ & ->)].
  - case_bool_decide as Hn; simpl.
    + split; [done|]. intros (_ & Hname & _). done.
    + split; [by intros ->|by intros (_ & _ & ->)].
Qed.

End ValueObjectFacts.

(** X21. When the comparison of values is symmetric and transitive, so is
  [equals] between value objects: the order of the two objects does not
  matter, and equality passes along a chain. *)
Theorem X21_equals_symmetric_and_transitive :
  forall (V : Type) (eqV : V -> V -> bool)
         (a b c : ValueObjects.ValueObject V),
    (forall x y, eqV x y = eqV y x) ->
    (forall x y z, eqV x y = true -> eqV y z = true -> eqV x z = true) ->
    ValueObjects.equals eqV a (ValueObjects.Val b)
      = ValueObjects.equals eqV b (ValueObjects.Val a) /\
    (ValueObjects.equals eqV a (ValueObjects.Val b) = true ->
     ValueObjects.equals eqV b (ValueObjects.Val c) = true ->
     ValueObjects.equals eqV a (ValueObjects.Val c) = true).
Proof.
  intros V eqV a b c Hsym Htrans. split.
  - destruct (ValueObjects.equals eqV a (ValueObjects.Val b)) eqn:Hab,
             (ValueObjects.equals eqV b (ValueObjects.Val a)) eqn:Hba; try done.
    + apply equals_true in Hab as (Hb & Hname & Heq).
      assert (ValueObjects.equals eqV b (ValueObjects.Val a) = true) as Habs; [|congruence].
      apply equals_true. split; [|split; [done|by rewrite isEqual_sym]].
      intros Ha. rewrite Ha in Heq. by destruct (ValueObjects.value b).
    + apply equals_true in Hba as (Ha & Hname & Heq).
      assert (ValueObjects.equals eqV a (ValueObjects.Val b) = true) as Habs; [|congruence].
      apply equals_true. split; [|split; [done|by rewrite isEqual_sym]].
      intros Hb. rewrite Hb in Heq. by destruct (ValueObjects.value a).
  - intros (Hb & Hab & Heq1)%equals_true (Hc & Hbc & Heq2)%equals_true.
    apply equals_true. split; [done|]. split; [congruence|].
    by apply (isEqual_trans eqV _ (ValueObjects.value b)).
Qed.

Lemma X21_witness :
  ValueObjects.equals String.eqb (ValueObjects.Name_new "Ana")
      (ValueObjects.Val (ValueObjects.Name_new "Bia"))
    = ValueObjects.equals String.eqb (ValueObjects.Name_new "Bia")
        (ValueObjects.Val (ValueObjects.Name_new "Ana")).
Proof.
  apply (proj1 (X21_equals_symmetric_and_transitive string String.eqb
                  (ValueObjects.Name_new "Ana") (ValueObjects.Name_new "Bia")
                  (ValueObjects.Name_new "Bia")
                  String.eqb_sym
                  (fun x y z Hxy Hyz =>
                     eq_ind_r (fun t => String.eqb t z = true) Hyz
                       (proj1 (String.eqb_eq x y) Hxy)))).
Defined.

(** X22. [equals] is false against [null], against [undefined] and against
  an object of a class with another name; when it is true the two objects
  have the same class name and equal values.  A value object equals itself
  exactly when its value is not [undefined]: one that wraps [undefined] is
  not equal to itself. *)
Theorem X22_equals_edge_cases :
  forall (V : Type) (eqV : V -> V -> bool) (a b : ValueObjects.ValueObject V),
    (forall x, eqV x x = true) ->
    ValueObjects.equals eqV a ValueObjects.Null = false /\
    ValueObjects.equals eqV a ValueObjects.Undefined = false /\
    (ValueObjects.constructorName b <> ValueObjects.constructorName a ->
       ValueObjects.equals eqV a (ValueObjects.Val b) = false) /\
    (ValueObjects.equals eqV a (ValueObjects.Val b) = true ->
       ValueObjects.constructorName a = ValueObjects.constructorName b /\
       ValueObjects.isEqual eqV (ValueObjects.value a) (ValueObjects.value b) = true) /\
    (ValueObjects.equals eqV a (ValueObjects.Val a) = true
       <-> ValueObjects.value a <> ValueObjects.Undefined).
Proof.
  intros V eqV a b Hrefl. split; [done|]. split; [done|]. split; [|split].
  - intros Hne. destruct (ValueObjects.equals eqV a (ValueObjects.Val b)) eqn:Hab; [|done].
    apply equals_true in Hab as (_ & Hname & _). done.
  - intros (_ & Hname & Heq)%equals_true. by split.
  - rewrite equals_true. split; [by intros [? _]|]. intros Ha. split; [done|].
    split; [done|]. destruct (ValueObjects.value a); simpl; auto.
Qed.

Lemma X22_witness :
  ValueObjects.equals String.eqb (ValueObjects.new "Name" ValueObjects.Undefined)
      (ValueObjects.Val (ValueObjects.new "Name" ValueObjects.Undefined)) = true
  <-> ValueObjects.value (ValueObjects.new "Name" (@ValueObjects.Undefined string))
      <> ValueObjects.Undefined.
Proof.
  apply (X22_equals_edge_cases string String.eqb
           (ValueObjects.new "Name" ValueObjects.Undefined)
           (ValueObjects.new "Name" ValueObjects.Undefined) String.eqb_refl).
Defined.

(** X23. Two names are equal exactly when their strings are: the
  constructor keeps the string as it is, and names that [isValid] refuses
  are compared like the others. *)
Theorem X23_names_compare_by_string :
  forall (n1 n2 : string),
    ValueObjects.equals String.eqb (ValueObjects.Name_new n1)
      (ValueObjects.Val (ValueObjects.Name_new n2)) = true
    <-> n1 = n2.
Proof.
  intros n1 n2. rewrite equals_true. simpl. rewrite String.eqb_eq.
  split; [by intros (_ & _ & ?)|]. intros ->. by repeat split.
Qed.

(** * Dispatch outside a transaction, dispatch order, handler failures and
  repeated commits *)




(** C8, as the code has it.  [commit] consults no transaction state: in
  every state of the unit of work it is the flush of the entity manager, so
  it resolves exactly when the entity manager accepts the flush, and it
  resolves each time it is called again while that holds, however many
  commits came before. *)
Theorem C8_commit_is_repeatable :
  forall (n : nat) (w : Nest.World),
    Nest.commit w = Nest.flush w /\
    (fst (Nest.commit w) = Nest.Resolved <-> Nest.databaseUp (Nest.em w) = true) /\
    (Nest.databaseUp (Nest.em w) = true ->
       fst (NestLog.commitTimes n w) = replicate n Nest.Resolved /\
       Nest.databaseUp (Nest.em (snd (NestLog.commitTimes n w))) = true).
Proof.
  intros n w. split; [done|]. split.
  - unfold Nest.commit, Nest.flush. destruct (Nest.databaseUp (Nest.em w)); simpl;
      split; intros H'; done.
  - revert w. induction n as [|n IH]; intros w Hup; simpl; [done|].
    destruct (commit_resolves w Hup) as [Hres Hup'].
    destruct (Nest.commit w) as [s w']. simpl in Hres, Hup'. subst s.
    destruct (IH w' Hup') as [Hall Hup''].
    destruct (NestLog.commitTimes n w') as [ss w'']. simpl in *. by rewrite Hall.
Qed.

Lemma C8_witness :
  fst (NestLog.commitTimes 3 NestSample.worldUp)
    = [Nest.Resolved; Nest.Resolved; Nest.Resolved] /\
  Nest.databaseUp (Nest.em (snd (NestLog.commitTimes 3 NestSample.worldUp))) = true.
Proof.
  apply (proj2 (proj2 (C8_commit_is_repeatable 3 NestSample.worldUp))). reflexivity.
Defined.

(** C8 fails as stated: a second [commit] on the same unit of work resolves
  like the first. *)
Lemma C8_counterexample :
  fst (Nest.commit NestSample.worldUp) = Nest.Resolved /\
  fst (Nest.commit (snd (Nest.commit NestSample.worldUp))) = Nest.Resolved.
Proof. split; reflexivity. Qed.

Section NestDispatch.

Import Nest NestLog.

(** C5, as the code has it.  In [DomainEventManager.publish] a handler that
  rejects does not keep the other handlers of the same event from being
  called, but it ends the batch: [publish] rejects to its caller, and the
  later events are not emitted, so that no handler is called for them. *)
Theorem C5_rejection_ends_the_batch :
  forall (m : DomainEventManager) (a : AggregateRoot)
         (pre : list DomainEvent) (ev : DomainEvent) (post : list DomainEvent)
         (h : Handler) (l : list Nest.Obs),
    events a = pre ++ ev :: post ->
    (forall ev', ev' ∈ pre -> resolvesOn (domainEventsSubscriber m) ev') ->
    h ∈ matchingListeners (getEventName ev) (domainEventsSubscriber m) ->
    handle h ev <> Resolved ->
    (exists reason,
       publish m a l
         = (Rejected reason,
            l ++ flat_map (emissionOf DomainPhase (domainEventsSubscriber m)) pre
              ++ emissionOf DomainPhase (domainEventsSubscriber m) ev)) /\
    (forall h', h' ∈ matchingListeners (getEventName ev) (domainEventsSubscriber m) ->
       Handled DomainPhase (handlerId h') ev
         ∈ emissionOf DomainPhase (domainEventsSubscriber m) ev).
Proof.
  intros m a pre ev post h l Hevs Hres Hh Hrej. split.
  - unfold publish. rewrite Hevs. apply emitEach_rejects; [done|].
    intros Hall. apply Hrej. by apply Hall.
  - intros h' Hh'. unfold emissionOf. right.
    apply (list_elem_of_fmap_2 (fun h0 => Handled DomainPhase (handlerId h0) ev)). done.
Qed.

Lemma C5_witness :
  (exists reason,
     publish NestSample.managerWithFailure
       {| events := [NestSample.partnerCreated; NestSample.secondPartnerCreated] |} []
     = (Rejected reason,
        [] ++ flat_map (emissionOf DomainPhase
                          (domainEventsSubscriber NestSample.managerWithFailure)) []
           ++ emissionOf DomainPhase (domainEventsSubscriber NestSample.managerWithFailure)
                NestSample.partnerCreated)) /\
  (forall h',
     h' ∈ matchingListeners (getEventName NestSample.partnerCreated)
            (domainEventsSubscriber NestSample.managerWithFailure) ->
     Handled DomainPhase (handlerId h') NestSample.partnerCreated
       ∈ emissionOf DomainPhase (domainEventsSubscriber NestSample.managerWithFailure)
           NestSample.partnerCreated).
Proof.
  apply (C5_rejection_ends_the_batch NestSample.managerWithFailure
           {| events := [NestSample.partnerCreated; NestSample.secondPartnerCreated] |}
           [] NestSample.partnerCreated [NestSample.secondPartnerCreated]
           NestSample.failingHandler []).
  - reflexivity.
  - intros ev' Hev'. by apply elem_of_nil in Hev'.
  - vm_compute. left.
  - vm_compute. discriminate.
Defined.

(** C5 fails as stated: two handlers are subscribed to [PartnerCreated] and
  the first always rejects.  For the first event both are called; [publish]
  then rejects to its caller, and the second event of the same kind is
  never emitted, so the second handler is not called for it. *)
Lemma C5_counterexample :
  publish NestSample.managerWithFailure
    {| events := [NestSample.partnerCreated; NestSample.secondPartnerCreated] |} []
    = (Rejected "handler failed",
       [Emitted DomainPhase NestSample.partnerCreated;
        Handled DomainPhase 3 NestSample.partnerCreated;
        Handled DomainPhase 1 NestSample.partnerCreated]).
Proof. reflexivity. Qed.

End NestDispatch.

(** *** The order of a commit *)


Lemma firstOccurrences_NoDup (l : list Ref) :
  NoDup l -> firstOccurrences [] l = l.
Proof.
  assert (forall seen, NoDup l -> (forall r, r ∈ seen -> r ∉ l) ->
            firstOccurrences seen l = l) as Hgen.
  { induction l as [|x l IH]; intros seen Hnd Hdisj; simpl; [done|].
    apply NoDup_cons in Hnd as [Hx Hnd].
    rewrite bool_decide_false by (intros Hin; apply (Hdisj x Hin); by left).
    f_equal. apply IH; [done|]. intros r Hr Hrl.
    apply elem_of_cons in Hr as [->|Hr]; [done|]. apply (Hdisj r Hr). by right. }
  intros Hnd. apply Hgen; [done|]. intros r Hr. by apply elem_of_nil in Hr.
Qed.



Section NestOrder.

Import Nest NestLog.



End NestOrder.




(** *** What a commit publishes *)

Lemma publishEvents_fromDispatch (listeners : list ApplicationListener) (r : Ref)
    (w : World) :
  exists ds, log (snd (publishEvents listeners r w)) = log w ++ ds /\
    Forall (fromDispatch listeners (pendingEvents (heap w) r)) ds.
Proof.
  unfold publishEvents, pendingEvents.
  destruct (heap w !! r) as [e|]; simpl.
  - destruct (publishLoop_fromDispatch listeners
                (AggregateRoot.getDomainEvents (asAggregateRoot e)) w) as (ds & Hw & Hds).
    destruct (publishLoop listeners _ w) as [[[]|ex] w']; simpl in Hw; subst w'; simpl;
      by exists ds.
  - exists []. by rewrite app_nil_r.
Qed.

Lemma pendingEvents_after_publishEvents (listeners : list ApplicationListener)
    (r r' : Ref) (w : World) (ev : DomainEvent) :
  ev ∈ pendingEvents (heap (snd (publishEvents listeners r w))) r' ->
  ev ∈ pendingEvents (heap w) r'.
Proof.
  destruct (publishEvents_heap listeners r w) as [[_ Hheap]|[_ Hheap]];
    rewrite Hheap; [|done].
  unfold pendingEvents. rewrite lookup_alter.
  case_decide as Heq; [|done]. subst r'.
  destruct (heap w !! r) as [e|]; simpl; [|done].
  rewrite asAggregateRoot_with. simpl. by intros Hnil%elem_of_nil.
Qed.

Lemma triggerAfterCommit_fromDispatch (listeners : list ApplicationListener)
    (ss : list TransactionSynchronization) (w : World) :
  exists ds, log (snd (triggerAfterCommit listeners ss w)) = log w ++ ds /\
    Forall (fromDispatch listeners
              (flat_map (pendingEvents (heap w)) (map capturedAggregate ss))) ds.
Proof.
  revert w. induction ss as [|s ss IH]; intros w; cbn [triggerAfterCommit map flat_map].
  - exists []. by rewrite app_nil_r.
  - unfold afterCommit.
    destruct (publishEvents_fromDispatch listeners (capturedAggregate s) w)
      as (ds1 & Hlog1 & Hds1).
    pose proof (fun r' ev => pendingEvents_after_publishEvents listeners
                               (capturedAggregate s) r' w ev) as Hsub.
    assert (Forall (fromDispatch listeners
                      (pendingEvents (heap w) (capturedAggregate s)
                         ++ flat_map (pendingEvents (heap w)) (map capturedAggregate ss)))
              ds1) as Hhead.
    { eapply Forall_impl; [exact Hds1|]. intros o. apply fromDispatch_mono.
      intros ev Hev. apply elem_of_app. by left. }
    destruct (publishEvents listeners (capturedAggregate s) w) as [[[]|ex] w1];
      simpl in Hlog1; [|by exists ds1].
    destruct (IH w1) as (ds2 & Hlog2 & Hds2).
    exists (ds1 ++ ds2). rewrite Hlog2, Hlog1, app_assoc. split; [done|].
    apply Forall_app. split; [done|].
    eapply Forall_impl; [exact Hds2|]. intros o. apply fromDispatch_mono.
    intros ev Hev. apply elem_of_app. right.
    apply list_elem_of_In, in_flat_map in Hev as (r' & Hr' & Hev).
    apply list_elem_of_In, in_flat_map. exists r'. split; [done|].
    apply list_elem_of_In. apply (Hsub r' ev). simpl. by apply list_elem_of_In.
Qed.

(** X11. A commit publishes from the buffers of the aggregates handed to
  [publishAfterCommit] and from no other: after the commit mark every
  publication is of an event that was pending on a tracked aggregate and
  every delivery is of such an event to a registered listener that supports
  it.  The buffer of an aggregate that was not handed over is as it was. *)
Theorem X11_commit_publishes_tracked_buffers_only :
  forall (listeners : list ApplicationListener) (w : World) (ds : list Obs),
    log (snd (processCommit listeners w)) = log w ++ Committed :: ds ->
    Forall (fromDispatch listeners
              (flat_map (pendingEvents (heap w)) (trackedAggregates w))) ds /\
    (forall r, r ∉ trackedAggregates w ->
       pendingEvents (heap (snd (processCommit listeners w))) r = pendingEvents (heap w) r).
Proof.
  intros listeners w ds Hlog. split.
  - unfold processCommit in Hlog.
    destruct (triggerAfterCommit_fromDispatch listeners (synchronizations w)
                (emit [Committed] w)) as (ds' & Hlog' & Hds').
    destruct (triggerAfterCommit listeners _ _) as [c w2]. simpl in *.
    rewrite triggerAfterCompletion_log, Hlog', <- app_assoc in Hlog.
    apply app_inv_head in Hlog. simpl in Hlog. injection Hlog as <-. done.
  - intros r Hr. unfold pendingEvents. rewrite processCommit_heap.
    destruct (triggerAfterCommit_heap listeners (synchronizations w) (emit [Committed] w) r)
      as [Hsame|[Hin _]]; [by rewrite Hsame|]. by destruct Hr.
Qed.

Lemma X11_witness :
  Forall (fromDispatch [recordingListener]
            (flat_map (pendingEvents (heap worldWithUntracked))
               (trackedAggregates worldWithUntracked)))
    [Published (PartnerCreated 13%N 3000 "2" "Acme");
     Delivered 2 (PartnerCreated 13%N 3000 "2" "Acme")] /\
  pendingEvents (heap (snd (processCommit [recordingListener] worldWithUntracked))) 1%nat
    = [OrderCreated 11%N 1000 "1" "customer" "spot" tenReais PENDING].
Proof.
  destruct (X11_commit_publishes_tracked_buffers_only [recordingListener] worldWithUntracked
              [Published (PartnerCreated 13%N 3000 "2" "Acme");
               Delivered 2 (PartnerCreated 13%N 3000 "2" "Acme")]) as [Hds Hframe].
  - reflexivity.
  - split; [exact Hds|]. rewrite (Hframe 1%nat); [reflexivity|].
    vm_compute. intros Hin. apply list_elem_of_singleton in Hin. discriminate Hin.
Defined.
